(** * server-compile: the synctex repair, the path decomposition and the driver

    A shallow embedding of [server-compile.py].  The script runs on a POSIX
    host ([os.path] is [posixpath], [os.linesep] is a line feed), so the
    path helpers of the Python library are embedded as [posixpath] defines
    them, and the text layer of [gzip.open(..., "rt")] as universal-newline
    reading.  A Python [str] is embedded as a list of characters; the code
    looks at no character other than the separator, the dot and the two
    line breaks, so the 256 characters of [ascii] stand for the code
    points. *)

From Stdlib Require Import String Ascii List ZArith Bool Arith Lia.
Import ListNotations.
Local Open Scope string_scope.
Local Open Scope list_scope.

Set Implicit Arguments.

(** ** Python strings *)

Definition str := list ascii.

Coercion list_ascii_of_string : string >-> list.

Definition sep : ascii := "/"%char.
Definition extsep : ascii := "."%char.
Definition LF : ascii := "010"%char.
Definition CR : ascii := "013"%char.
Definition DQUOTE : ascii := "034"%char.
Definition dot : str := ".".
Definition dotdot : str := "..".

Definition str_eqb (a b : str) : bool :=
  if list_eq_dec ascii_dec a b then true else false.

(** [s.startswith(p)] *)
Fixpoint startswith (s p : str) : bool :=
  match p, s with
  | [], _ => true
  | _ :: _, [] => false
  | x :: p', y :: s' => Ascii.eqb x y && startswith s' p'
  end.

(** [s.endswith(p)] *)
Definition endswith (s p : str) : bool := startswith (rev s) (rev p).

(** [p in s] *)
Fixpoint contains (p s : str) : bool :=
  startswith s p || match s with [] => false | _ :: s' => contains p s' end.

(** One pass of the scan behind [str.replace], [str.split] and [str.count]
    for a non-empty pattern: at each position either the pattern starts
    there and the scan jumps over it, or the character is kept and the scan
    moves on by one.  [fuel] bounds the number of positions visited; the
    length of the string is always enough. *)
Fixpoint replace_scan (fuel : nat) (s old new : str) : str :=
  match fuel with
  | O => s
  | S fuel' =>
      match s with
      | [] => []
      | c :: s' =>
          if startswith s old
          then new ++ replace_scan fuel' (skipn (length old) s) old new
          else c :: replace_scan fuel' s' old new
      end
  end.

(** [s.replace(old, new)]: every occurrence, leftmost first, without
    overlap; an empty [old] matches before every character and at the end. *)
Definition replace (s old new : str) : str :=
  match old with
  | [] => new ++ flat_map (fun c => c :: new) s
  | _ :: _ => replace_scan (length s) s old new
  end.


Fixpoint count_scan (fuel : nat) (s old : str) : nat :=
  match fuel with
  | O => 0
  | S fuel' =>
      match s with
      | [] => 0
      | c :: s' =>
          if startswith s old
          then S (count_scan fuel' (skipn (length old) s) old)
          else count_scan fuel' s' old
      end
  end.

(** [s.count(old)]: the number of occurrences [s.replace] replaces. *)
Definition count (s old : str) : nat :=
  match old with
  | [] => S (length s)
  | _ :: _ => count_scan (length s) s old
  end.

Fixpoint split_scan (fuel : nat) (s old : str) : list str :=
  match fuel with
  | O => [s]
  | S fuel' =>
      match s with
      | [] => [[]]
      | c :: s' =>
          if startswith s old
          then [] :: split_scan fuel' (skipn (length old) s) old
          else match split_scan fuel' s' old with
               | piece :: pieces => (c :: piece) :: pieces
               | [] => [[c]]
               end
      end
  end.

(** [s.split(old)]; an empty separator raises [ValueError] ([None]). *)
Definition str_split (s old : str) : option (list str) :=
  match old with
  | [] => None
  | _ :: _ => Some (split_scan (length s) s old)
  end.

(** [s.split(c)] for a separator of one character. *)
Fixpoint split_sep (s : str) (c : ascii) : list str :=
  match s with
  | [] => [[]]
  | x :: s' =>
      if Ascii.eqb x c then [] :: split_sep s' c
      else match split_sep s' c with
           | comp :: comps => (x :: comp) :: comps
           | [] => [[x]]
           end
  end.

(** [j.join(l)] *)
Fixpoint str_join (j : str) (l : list str) : str :=
  match l with
  | [] => []
  | x :: l' => match l' with [] => x | _ :: _ => x ++ j ++ str_join j l' end
  end.

(** [s.rfind(c)]: the highest index of [c] in [s], or [-1]. *)
Fixpoint rfind (s : str) (c : ascii) : Z :=
  match s with
  | [] => (-1)%Z
  | x :: s' =>
      let r := rfind s' c in
      if (0 <=? r)%Z then (r + 1)%Z
      else if Ascii.eqb x c then 0%Z else (-1)%Z
  end.

(** [s[i:j]] for indices that are not negative. *)
Definition slice (s : str) (i j : Z) : str :=
  firstn (Z.to_nat j - Z.to_nat i) (skipn (Z.to_nat i) s).

Fixpoint lstrip (s : str) (c : ascii) : str :=
  match s with
  | [] => []
  | x :: s' => if Ascii.eqb x c then lstrip s' c else s
  end.

(** [s.rstrip(c)] *)
Definition rstrip (s : str) (c : ascii) : str := rev (lstrip (rev s) c).

Definition is_nil {A : Type} (l : list A) : bool :=
  match l with [] => true | _ :: _ => false end.

(** ** [os.path] on a POSIX host *)

Module os_path.

(** [posixpath.split]:
<<
    i = p.rfind(sep) + 1
    head, tail = p[:i], p[i:]
    if head and head != sep*len(head):
        head = head.rstrip(sep)
    return head, tail
>> *)
Definition split (p : str) : str * str :=
  let i := Z.to_nat (rfind p sep + 1) in
  let head := firstn i p in
  let tail := skipn i p in
  let head :=
    if negb (is_nil head) && negb (str_eqb head (repeat sep (length head)))
    then rstrip head sep else head in
  (head, tail).

(** The loop of [genericpath._splitext] that skips the leading dots of the
    file name: [true] when it finds a character that is not a dot before
    [dotIndex]. *)
Fixpoint splitext_loop (fuel : nat) (p : str) (filenameIndex dotIndex : Z)
  : bool :=
  match fuel with
  | O => false
  | S fuel' =>
      if (filenameIndex <? dotIndex)%Z then
        if negb (str_eqb (slice p filenameIndex (filenameIndex + 1)) [extsep])
        then true
        else splitext_loop fuel' p (filenameIndex + 1) dotIndex
      else false
  end.

(** [posixpath.splitext], that is [genericpath._splitext(p, '/', None, '.')]:
<<
    sepIndex = p.rfind(sep)
    dotIndex = p.rfind(extsep)
    if dotIndex > sepIndex:
        filenameIndex = sepIndex + 1
        while filenameIndex < dotIndex:
            if p[filenameIndex:filenameIndex+1] != extsep:
                return p[:dotIndex], p[dotIndex:]
            filenameIndex += 1
    return p, p[:0]
>> *)
Definition splitext (p : str) : str * str :=
  let sepIndex := rfind p sep in
  let dotIndex := rfind p extsep in
  if (sepIndex <? dotIndex)%Z
     && splitext_loop (Z.to_nat (dotIndex - sepIndex)) p (sepIndex + 1) dotIndex
  then (firstn (Z.to_nat dotIndex) p, skipn (Z.to_nat dotIndex) p)
  else (p, []).

(** [posixpath.join(a, b)]:
<<
    if b.startswith(sep): path = b
    elif not path or path.endswith(sep): path += b
    else: path += sep + b
>> *)
Definition join (a b : str) : str :=
  if startswith b [sep] then b
  else if is_nil a || endswith a [sep] then a ++ b
  else a ++ [sep] ++ b.

(** POSIX allows one or two initial slashes and treats three or more as
    one. *)
Definition initial_slashes (path : str) : nat :=
  if startswith path [sep] then
    if startswith path [sep; sep] && negb (startswith path [sep; sep; sep])
    then 2 else 1
  else 0.

(** The body of the loop of [posixpath.normpath] over the components:
<<
    if comp in (empty, dot): continue
    if (comp != dotdot or (not initial_slashes and not new_comps) or
         (new_comps and new_comps[-1] == dotdot)):
        new_comps.append(comp)
    elif new_comps:
        new_comps.pop()
>> *)
Definition norm_step (slashes : nat) (new_comps : list str) (comp : str)
  : list str :=
  if str_eqb comp [] || str_eqb comp dot then new_comps
  else if negb (str_eqb comp dotdot)
          || ((slashes =? 0)%nat && is_nil new_comps)
          || (negb (is_nil new_comps) && str_eqb (last new_comps []) dotdot)
  then new_comps ++ [comp]
  else if negb (is_nil new_comps) then removelast new_comps
  else new_comps.

(** [posixpath.normpath]: purely lexical, no file system is consulted.
<<
    if path == empty: return dot
    initial_slashes = path.startswith(sep)
    if (initial_slashes and
        path.startswith(sep*2) and not path.startswith(sep*3)):
        initial_slashes = 2
    comps = path.split(sep)
    new_comps = []
    for comp in comps: ...
    comps = new_comps
    path = sep.join(comps)
    if initial_slashes:
        path = sep*initial_slashes + path
    return path or dot
>> *)
Definition normpath (path : str) : str :=
  if is_nil path then dot
  else
    let slashes := initial_slashes path in
    let comps := fold_left (norm_step slashes) (split_sep path sep) [] in
    let path := str_join [sep] comps in
    let path := if (slashes =? 0)%nat then path else repeat sep slashes ++ path in
    if is_nil path then dot else path.

End os_path.

(** ** Text files

    [gzip.open(f, "rt")] decompresses and decodes; iterating over it yields
    the lines of the text, each with its line feed, after universal-newline
    translation (a carriage return, alone or before a line feed, reads as a
    line feed).  [gzip.open(f, "wt")] writes the line feed as it is. *)

Fixpoint translate_newlines (s : str) : str :=
  match s with
  | [] => []
  | c :: s' =>
      if Ascii.eqb c CR then
        LF :: match s' with
              | [] => []
              | d :: s'' =>
                  if Ascii.eqb d LF then translate_newlines s''
                  else translate_newlines s'
              end
      else c :: translate_newlines s'
  end.

Fixpoint split_lines (s : str) : list str :=
  match s with
  | [] => []
  | c :: s' =>
      if Ascii.eqb c LF then [LF] :: split_lines s'
      else match split_lines s' with
           | line :: lines => (c :: line) :: lines
           | [] => [[c]]
           end
  end.

(** [for line in fin] *)
Definition read_lines (text : str) : list str :=
  split_lines (translate_newlines text).

(** ** The synctex repair *)

Definition LATEXMK_COMMAND : str :=
  "latexmk -pdf -interaction=nonstopmode -synctex=1 -verbose -f".
Definition SERVER_TARGET_DIR : str := "/tmp".

(** The expression appended to [newlines] for one line. *)
Definition sanitize_line (current_directory target_directory line : str)
  : str :=
  os_path.normpath (replace line target_directory current_directory).

(** What [sanitize_synctex] writes back, as a function of the text read. *)
Definition sanitize_text (text current_directory target_directory : str)
  : str :=
  let newlines :=
    map (sanitize_line current_directory target_directory) (read_lines text)
  in concat newlines.

(** ** The path decomposition *)

Record Filepath_info : Type := {
  folder : str;
  filename : str;
  stem : str;
  extension : str;
  bottom_folders : str;
  top_folder : str
}.

Definition Filepath_info_init (path : str) : Filepath_info :=
  let (folder, filename) := os_path.split path in
  let (stem, extension) := os_path.splitext filename in
  let (bottom_folders, top_folder) := os_path.split folder in
  {| folder := folder; filename := filename; stem := stem;
     extension := extension; bottom_folders := bottom_folders;
     top_folder := top_folder |}.

(** ** The outside world

    The script reaches the outside through [parser.parse_args()],
    [subprocess.run(..., shell=True)], [gzip.open] and [print].  A shell
    command is an oracle: it returns an exit status and may change the
    local file tree and the rest of the world ([env]: the server, the
    network).  Files are keyed by the path the operating system resolves, a
    relative path against the current working directory. *)

Inductive exn : Type :=
| AssertionError (msg : str)
| SystemExit (code : Z)
| TypeError
| FileNotFoundError (gzfile : str)
| BadGzipFile (gzfile : str)
| EOFError
| UnicodeDecodeError
| PermissionError (gzfile : str)
| OtherError (name : str).

(** Why a file that is there cannot be read as gzip text, apart from not
    being a gzip stream. *)
Inductive read_error : Type :=
| Truncated            (* the stream ends before its end-of-stream marker *)
| Undecodable          (* the bytes are not text in the encoding *)
| Denied               (* the file may not be opened for reading *)
| Other (name : str).  (* any other exception of the reading, by its name *)

(** A file, as far as [gzip.open] tells: what reading it as text gives,
    and, for a file that reads as text, whether it may be opened for
    writing.  An empty file reads as the empty text, as a gzip stream of
    the empty text does. *)
Inductive file : Type :=
| GzipText (text : str)          (* reads as [text] and may be rewritten *)
| ReadOnlyGzipText (text : str)  (* reads as [text]; writing is refused *)
| NotGzipText                    (* not accepted as a gzip stream *)
| Unreadable (why : read_error).

(** The exception of a failed reading. *)
Definition read_exn (why : read_error) (gzfile : str) : exn :=
  match why with
  | Truncated => EOFError
  | Undecodable => UnicodeDecodeError
  | Denied => PermissionError gzfile
  | Other name => OtherError name
  end.

(** What [parser.parse_args()] makes of the command line: the namespace
    with [filepath] and [servername] ([None] when the option [--server] is
    left out), or the end of the process, after the help text for [-h] and
    [--help], after the usage message for a command line it refuses (no
    file path, an unknown option). *)
Inductive parse_result : Type :=
| Namespace (filepath : str) (servername : option str)
| HelpRequested
| UsageError.

Definition FS : Type := str -> option file.

Definition fs_write (fs : FS) (path : str) (f : file) : FS :=
  fun p => if str_eqb p path then Some f else fs p.

Definition resolve (cwd path : str) : str := os_path.join cwd path.

Inductive event : Type :=
| Print (line : str)
| Run (command : str)
| GzOpenRead (gzfile : str)
| GzOpenWrite (gzfile : str)
| PrintHelp                      (* the help text of argparse *)
| PrintUsage.                    (* the usage and error message of argparse *)

(** The patterns of the two [--exclude] options, as the shell hands them to
    rsync (inside double quotes nothing is expanded). *)
Definition forward_exclude : str := ".[!.]*".
Definition back_exclude : str := "(.[!.]*|*.tex)".

(** ** The wildcards of rsync's exclude patterns

    rsync is not part of the script; this is the pattern language its
    manual gives for filter rules, as far as the two patterns above use it:
    [*] matches any run of characters of a name, [?] any one character,
    [[...]] one character of a class ([[!...]] or [[^...]]: one character
    outside it), a backslash quotes the next character, and every other
    character, parentheses and the vertical bar included, stands for
    itself.  There is no alternation.  A pattern without a slash is matched
    against the last component of each path of the transfer. *)

Module rsync.

Inductive token : Type :=
| Lit (c : ascii)
| AnyChar
| Star
| Class (negated : bool) (members : list ascii).

Fixpoint class_members (p : str) : option (list ascii * str) :=
  match p with
  | [] => None
  | c :: p' =>
      if Ascii.eqb c "]" then Some ([], p')
      else match class_members p' with
           | Some (members, rest) => Some (c :: members, rest)
           | None => None
           end
  end.

Fixpoint tokens (fuel : nat) (p : str) : list token :=
  match fuel with
  | O => []
  | S fuel' =>
      match p with
      | [] => []
      | c :: p' =>
          if Ascii.eqb c "*" then Star :: tokens fuel' p'
          else if Ascii.eqb c "?" then AnyChar :: tokens fuel' p'
          else if Ascii.eqb c "\" then
            match p' with
            | [] => [Lit c]
            | d :: p'' => Lit d :: tokens fuel' p''
            end
          else if Ascii.eqb c "[" then
            let (negated, body) :=
              match p' with
              | n :: b =>
                  if Ascii.eqb n "!" || Ascii.eqb n "^" then (true, b)
                  else (false, p')
              | [] => (false, p')
              end in
            match class_members body with
            | Some (members, rest) => Class negated members :: tokens fuel' rest
            | None => Lit c :: tokens fuel' p'
            end
          else Lit c :: tokens fuel' p'
      end
  end.

Definition token_matches (t : token) (c : ascii) : bool :=
  match t with
  | Lit d => Ascii.eqb d c
  | AnyChar => negb (Ascii.eqb c sep)
  | Star => false
  | Class negated members =>
      negb (Ascii.eqb c sep)
      && xorb negated (existsb (Ascii.eqb c) members)
  end.

Fixpoint wildmatch (ts : list token) (name : str) : bool :=
  match ts with
  | [] => is_nil name
  | Star :: ts' =>
      (fix star (n : str) : bool :=
         wildmatch ts' n
         || match n with
            | [] => false
            | c :: n' => negb (Ascii.eqb c sep) && star n'
            end) name
  | t :: ts' =>
      match name with
      | [] => false
      | c :: name' => token_matches t c && wildmatch ts' name'
      end
  end.

(** Does [--exclude=pattern] leave the entry called [name] out? *)
Definition excludes (pattern name : str) : bool :=
  wildmatch (tokens (length pattern) pattern) name.

End rsync.

Section Driver.

Variable env : Type.
Variable shell : str -> env -> FS -> Z * (env * FS).

Record world : Type := {
  w_env : env;
  w_fs : FS;
  w_cwd : str;
  w_trace : list event
}.

Definition M (A : Type) : Type := world -> (exn + A) * world.

Definition ret {A : Type} (a : A) : M A := fun w => (inr a, w).

Definition bind {A B : Type} (m : M A) (k : A -> M B) : M B :=
  fun w =>
    match m w with
    | (inl e, w') => (inl e, w')
    | (inr a, w') => k a w'
    end.

Definition raise {A : Type} (e : exn) : M A := fun w => (inl e, w).

Local Notation "x <- m ;; k" := (bind m (fun x => k))
  (at level 61, m at next level, right associativity).
Local Notation "m ;; k" := (bind m (fun _ => k))
  (at level 61, right associativity).

Definition log (e : event) : M unit :=
  fun w => (inr tt, {| w_env := w_env w; w_fs := w_fs w; w_cwd := w_cwd w;
                       w_trace := w_trace w ++ [e] |}).

Definition print (line : str) : M unit := log (Print line).

(** [sp.run(command, shell=True).returncode] *)
Definition sp_run (command : str) : M Z :=
  log (Run command) ;;
  fun w =>
    let '(returncode, (e, fs)) := shell command (w_env w) (w_fs w) in
    (inr returncode, {| w_env := e; w_fs := fs; w_cwd := w_cwd w;
                        w_trace := w_trace w |}).

(** [assert b, msg]; the script is started by [#!/usr/bin/python3], without
    [-O], so assertions are checked. *)
Definition py_assert (b : bool) (msg : str) : M unit :=
  if b then ret tt else raise (AssertionError msg).

Definition sys_exit {A : Type} (code : Z) : M A := raise (SystemExit code).

(** [fin = gz.open(gzfile, "rt")] and the reading of all of [fin]: the
    lines are collected before anything is written, so a reading that
    fails, at the opening or at any line, leaves the file as it is. *)
Definition gz_read (gzfile : str) : M str :=
  log (GzOpenRead gzfile) ;;
  fun w =>
    match w_fs w (resolve (w_cwd w) gzfile) with
    | None => (inl (FileNotFoundError gzfile), w)
    | Some NotGzipText => (inl (BadGzipFile gzfile), w)
    | Some (Unreadable why) => (inl (read_exn why gzfile), w)
    | Some (GzipText text) => (inr text, w)
    | Some (ReadOnlyGzipText text) => (inr text, w)
    end.

(** [fout = gz.open(gzfile, "wt")], the writes and [fout.close()].  The
    opening is refused for a file that may not be written.  The script
    opens for writing only the file it has just read, so the file is there
    and reads as text when this runs. *)
Definition gz_write (gzfile : str) (text : str) : M unit :=
  log (GzOpenWrite gzfile) ;;
  fun w =>
    match w_fs w (resolve (w_cwd w) gzfile) with
    | Some (ReadOnlyGzipText _) => (inl (PermissionError gzfile), w)
    | _ =>
        (inr tt, {| w_env := w_env w;
                    w_fs := fs_write (w_fs w) (resolve (w_cwd w) gzfile)
                              (GzipText text);
                    w_cwd := w_cwd w; w_trace := w_trace w |})
    end.

Definition sync_forward_command (loc_filepath remote_filepath servername : str)
  : str :=
  "rsync -a -h --exclude=" ++ [DQUOTE] ++ forward_exclude ++ [DQUOTE]
    ++ " --info=progress2 "
    ++ loc_filepath ++ " " ++ servername ++ ":" ++ remote_filepath.

Definition sync_forward (loc_filepath remote_filepath servername : str)
  : M Z :=
  returncode <-
    sp_run (sync_forward_command loc_filepath remote_filepath servername) ;;
  py_assert (returncode =? 0)%Z
    "Forward rsync finished with nonzero exit code." ;;
  ret returncode.

Definition sync_back_command (remote_filepath loc_filepath servername : str)
  : str :=
  "rsync -a -h --exclude=" ++ [DQUOTE] ++ back_exclude ++ [DQUOTE]
    ++ " --info=progress2 "
    ++ servername ++ ":" ++ remote_filepath ++ " " ++ loc_filepath.

Definition sync_back (remote_filepath loc_filepath servername : str) : M Z :=
  returncode <-
    sp_run (sync_back_command remote_filepath loc_filepath servername) ;;
  py_assert (returncode =? 0)%Z "Rsync back finished with nonzero exit code." ;;
  ret returncode.

Definition sanitize_synctex (gzfile current_directory target_directory : str)
  : M unit :=
  text <- gz_read gzfile ;;
  gz_write gzfile (sanitize_text text current_directory target_directory).

Definition ssh_command (fp : Filepath_info) (server : str) : str :=
  let latexmk_command := LATEXMK_COMMAND ++ " " ++ filename fp in
  "ssh " ++ server ++ " " ++ [DQUOTE]
    ++ "cd " ++ os_path.join SERVER_TARGET_DIR (top_folder fp)
    ++ " && " ++ latexmk_command ++ [DQUOTE].

Definition synctex_gz_file (fp : Filepath_info) : str :=
  stem fp ++ ".synctex.gz".

(** [main]: the result of [args = parser.parse_args()] decides whether
    the script goes on; argparse ends the process with status 0 after the
    help text and with status 2 after a usage message. *)
Definition main (args : parse_result) : M unit :=
  match args with
  | HelpRequested => log PrintHelp ;; sys_exit 0
  | UsageError => log PrintUsage ;; sys_exit 2
  | Namespace filepath servername =>
      let fp := Filepath_info_init filepath in
      match servername with
      | None => raise TypeError
      | Some server =>
          print ("Syncing " ++ folder fp ++ " to " ++ server ++ "...") ;;
          sync_forward (folder fp) SERVER_TARGET_DIR server ;;
          print " " ;;
          print "--------------------------------------" ;;
          print "----- latexmk output begins here -----" ;;
          print "--------------------------------------" ;;
          print " " ;;
          latexmk_run <- sp_run (ssh_command fp server) ;;
          print " " ;;
          print "--------------------------------------" ;;
          print "------ latexmk output ends here ------" ;;
          print "--------------------------------------" ;;
          print " " ;;
          (if negb (latexmk_run =? 0)%Z
           then
             print ("Server-side latexmk run finished with nonzero exit code. "
                      ++ "                Not syncing back.") ;;
             sys_exit 1
           else print "latexmk run successful! Syncing back...") ;;
          sync_back (os_path.join SERVER_TARGET_DIR (top_folder fp))
            (bottom_folders fp) server ;;
          print ("Fiddling with " ++ synctex_gz_file fp
                   ++ " to make synctex work...") ;;
          sanitize_synctex (synctex_gz_file fp) (bottom_folders fp)
            SERVER_TARGET_DIR ;;
          print "Done! Exiting :)"
      end
  end.

(** The exit status of the process: an uncaught exception ends it with 1. *)
Definition exit_status (r : exn + unit) : Z :=
  match r with
  | inr _ => 0
  | inl (SystemExit code) => code
  | inl _ => 1
  end.

Definition commands (t : list event) : list str :=
  flat_map (fun e => match e with Run c => [c] | _ => [] end) t.

Definition gz_opens (t : list event) : list str :=
  flat_map (fun e => match e with
                     | GzOpenRead f | GzOpenWrite f => [f]
                     | _ => []
                     end) t.

(** The exit status of a command in a given state of the outside, and the
    state it leaves. *)
Definition status (command : str) (o : env * FS) : Z :=
  fst (shell command (fst o) (snd o)).

Definition after (command : str) (o : env * FS) : env * FS :=
  snd (shell command (fst o) (snd o)).

Definition outside (w : world) : env * FS := (w_env w, w_fs w).

(** The world after an event is logged, and after a command has run. *)
Definition logged (e : event) (w : world) : world :=
  {| w_env := w_env w; w_fs := w_fs w; w_cwd := w_cwd w;
     w_trace := w_trace w ++ [e] |}.

Definition ran (command : str) (w : world) : world :=
  {| w_env := fst (after command (outside w));
     w_fs := snd (after command (outside w));
     w_cwd := w_cwd w;
     w_trace := w_trace w ++ [Run command] |}.

(** The world after [gz_write]. *)
Definition written (gzfile text : str) (w : world) : world :=
  {| w_env := w_env w;
     w_fs := fs_write (w_fs w) (resolve (w_cwd w) gzfile) (GzipText text);
     w_cwd := w_cwd w;
     w_trace := w_trace w |}.

(** The three commands of a run. *)
Definition forward_command (fp : Filepath_info) (server : str) : str :=
  sync_forward_command (folder fp) SERVER_TARGET_DIR server.

Definition back_command (fp : Filepath_info) (server : str) : str :=
  sync_back_command (os_path.join SERVER_TARGET_DIR (top_folder fp))
    (bottom_folders fp) server.

End Driver.

(** ** Predicates of the statements *)

(** A component as [normpath] keeps them: not empty, not a dot, no
    separator inside. *)
Definition clean_comp (comp : str) : Prop :=
  comp <> [] /\ comp <> dot /\ ~ In sep comp.

(** The shape of the components [normpath] ends with: a [..] is only ever
    preceded by [..], and there is none below a root. *)
Definition dotdots_first (slashes : nat) (comps : list str) : Prop :=
  forall a b, comps = a ++ dotdot :: b ->
    slashes = 0 /\ Forall (eq dotdot) a.

(** The path [normpath] builds from the components it kept. *)
Definition render (slashes : nat) (comps : list str) : str :=
  let path := str_join [sep] comps in
  let path := if (slashes =? 0)%nat then path else repeat sep slashes ++ path in
  if is_nil path then dot else path.

(** The components [normpath] has kept at the end of its loop. *)
Definition norm_comps (path : str) : list str :=
  fold_left (os_path.norm_step (os_path.initial_slashes path))
    (split_sep path sep) [].

(** No line break inside. *)
Definition plain (s : str) : Prop := ~ In LF s /\ ~ In CR s.

(** A line as the text layer yields it: ended by its line feed, or, for the
    last one only, without one. *)
Definition terminated (line : str) : Prop :=
  exists body, line = body ++ [LF] /\ plain body.

Definition unterminated (line : str) : Prop := line <> [] /\ plain line.

Fixpoint lines_ok (lines : list str) : Prop :=
  match lines with
  | [] => True
  | line :: lines' =>
      match lines' with
      | [] => terminated line \/ unterminated line
      | _ :: _ => terminated line /\ lines_ok lines'
      end
  end.

(** No separator directly after a separator. *)
Definition no_double_sep (p : str) : Prop := contains [sep; sep] p = false.

(** The number of occurrences left in each line of the repaired file. *)
Definition occurrences_left (text current_directory target_directory : str)
  : list nat :=
  map (fun line => count line target_directory)
    (read_lines (sanitize_text text current_directory target_directory)).

(** Made of separators only (the empty string included). *)
Definition all_sep (s : str) : Prop := s = repeat sep (length s).

(** A directory as [os.path.join] prefixes it to a relative name. *)
Definition with_sep (d : str) : str :=
  if is_nil d || endswith d [sep] then d else d ++ [sep].

(** Where the back-transfer leaves the mapping file of the build: rsync
    recreates the remote folder [<remote-root>/<top-folder>] under the
    local bottom folder, and the build wrote the file next to the
    document. *)
Definition synced_back_mapping_file (fp : Filepath_info) : str :=
  os_path.join (os_path.join (bottom_folders fp) (top_folder fp))
    (stem fp ++ ".synctex.gz").

(** Worlds of the examples: no local file at the start, and a server whose
    build fails, one that cannot be reached, and one whose back-transfer
    brings the mapping file of the build. *)
Definition no_files : FS := fun _ => None.

Definition shell_build_fails (command : str) (e : unit) (fs : FS)
  : Z * (unit * FS) :=
  if startswith command "ssh " then (12%Z, (e, fs)) else (0%Z, (e, fs)).

Definition shell_unreachable (command : str) (e : unit) (fs : FS)
  : Z * (unit * FS) :=
  (255%Z, (e, fs)).

Definition shell_brings_mapping (command : str) (e : unit) (fs : FS)
  : Z * (unit * FS) :=
  if contains back_exclude command
  then (0%Z, (e, fs_write fs "/home/u/proj/topic/notes.synctex.gz"
                    (GzipText ("/tmp/topic/./notes.tex:12:34" ++ [LF]))))
  else (0%Z, (e, fs)).

Definition shell_always_ok (command : str) (e : unit) (fs : FS)
  : Z * (unit * FS) :=
  (0%Z, (e, fs)).

Definition shell_back_fails (command : str) (e : unit) (fs : FS)
  : Z * (unit * FS) :=
  if contains back_exclude command then (23%Z, (e, fs)) else (0%Z, (e, fs)).

(** A server whose back-transfer leaves the given file at the place of the
    mapping file. *)
Definition shell_brings (f : file) (command : str) (e : unit) (fs : FS)
  : Z * (unit * FS) :=
  if contains back_exclude command
  then (0%Z, (e, fs_write fs "/home/u/proj/topic/notes.synctex.gz" f))
  else (0%Z, (e, fs)).

Definition start (cwd : str) : world unit :=
  {| w_env := tt; w_fs := no_files; w_cwd := cwd; w_trace := [] |}.

(** * Facts about the string helpers *)

Lemma str_eqb_eq (a b : str) : str_eqb a b = true <-> a = b.
Proof.
  unfold str_eqb. destruct (list_eq_dec ascii_dec a b); split; congruence.
Qed.

Lemma str_eqb_neq (a b : str) : str_eqb a b = false <-> a <> b.
Proof.
  unfold str_eqb. destruct (list_eq_dec ascii_dec a b); split; congruence.
Qed.

Lemma str_eqb_refl (a : str) : str_eqb a a = true.
Proof. now apply str_eqb_eq. Qed.

Lemma startswith_nil (s : str) : startswith s [] = true.
Proof. now destruct s. Qed.

Lemma startswith_skipn (p s : str) :
  startswith s p = true -> s = p ++ skipn (length p) s.
Proof.
  revert s. induction p as [|x p IH]; intros [|y s] H; simpl in *;
    try reflexivity; try discriminate.
  apply andb_true_iff in H as [Hxy Hs]. apply Ascii.eqb_eq in Hxy.
  subst y. f_equal. now apply IH.
Qed.

Lemma startswith_app (p r : str) : startswith (p ++ r) p = true.
Proof.
  induction p as [|x p IH]; simpl.
  - apply startswith_nil.
  - now rewrite Ascii.eqb_refl.
Qed.

Lemma startswith_iff (p s : str) :
  startswith s p = true <-> exists r, s = p ++ r.
Proof.
  split.
  - intros H. eexists. now apply startswith_skipn.
  - intros [r ->]. apply startswith_app.
Qed.

Lemma startswith_app_l (p s r : str) :
  startswith s p = true -> startswith (s ++ r) p = true.
Proof.
  intros H. apply startswith_iff in H as [q ->].
  rewrite <- app_assoc. apply startswith_app.
Qed.

Lemma startswith_length (p s : str) :
  startswith s p = true -> length p <= length s.
Proof.
  intros H. apply startswith_iff in H as [q ->]. rewrite length_app. lia.
Qed.

Lemma contains_nil_l (s : str) : contains [] s = true.
Proof. destruct s; reflexivity. Qed.

Lemma contains_cons_false (p : str) (c : ascii) (s : str) :
  contains p (c :: s) = false ->
  startswith (c :: s) p = false /\ contains p s = false.
Proof. cbn [contains]. intros H. now apply orb_false_iff in H. Qed.

Lemma contains_false_startswith (p s : str) :
  contains p s = false -> startswith s p = false.
Proof.
  destruct s; cbn [contains]; intros H; now apply orb_false_iff in H.
Qed.

Lemma contains_nil_r (p : str) : contains p [] = startswith [] p.
Proof. cbn [contains]. apply orb_false_r. Qed.

Lemma contains_cons (p : str) (c : ascii) (s : str) :
  contains p (c :: s) = startswith (c :: s) p || contains p s.
Proof. reflexivity. Qed.

(** An occurrence anywhere: [contains] is the substring test. *)
Lemma contains_iff (p s : str) :
  contains p s = true <-> exists a b, s = a ++ p ++ b.
Proof.
  split.
  - induction s as [|c s IH]; intros H.
    + rewrite contains_nil_r in H. apply startswith_iff in H as [r Hr].
      now exists [], r.
    + rewrite contains_cons in H. apply orb_true_iff in H as [H|H].
      * apply startswith_iff in H as [r Hr]. now exists [], r.
      * destruct (IH H) as (a & b & ->). now exists (c :: a), b.
  - intros (a & b & ->). induction a as [|c a IH].
    + cbn [app]. destruct (p ++ b) as [|x r] eqn:E.
      * rewrite contains_nil_r. destruct p; [reflexivity | discriminate].
      * rewrite contains_cons, <- E, startswith_app. reflexivity.
    + cbn [app]. rewrite contains_cons, IH. apply orb_true_r.
Qed.

Lemma contains_app_false (p a b : str) :
  contains p (a ++ b) = false -> contains p a = false /\ contains p b = false.
Proof.
  intros H. split.
  - destruct (contains p a) eqn:E; [|reflexivity].
    apply contains_iff in E as (x & y & ->).
    assert (contains p ((x ++ p ++ y) ++ b) = true); [|congruence].
    apply contains_iff. exists x, (y ++ b). now rewrite <- !app_assoc.
  - destruct (contains p b) eqn:E; [|reflexivity].
    apply contains_iff in E as (x & y & ->).
    assert (contains p (a ++ x ++ p ++ y) = true); [|congruence].
    apply contains_iff. exists (a ++ x), y. now rewrite <- !app_assoc.
Qed.

(** ** [replace], [str_split] and [count] *)

Section Scan.

Variables old new : str.
Hypothesis old_not_empty : old <> [].

Lemma replace_scan_nil (fuel : nat) : replace_scan fuel [] old new = [].
Proof. now destruct fuel. Qed.

Lemma skipn_old_shorter (s : str) :
  s <> [] -> length (skipn (length old) s) < length s.
Proof.
  intros Hs. rewrite length_skipn.
  destruct old; [congruence|]. destruct s; [congruence|]. simpl. lia.
Qed.

Lemma replace_scan_enough (f1 : nat) :
  forall f2 s, length s <= f1 -> length s <= f2 ->
    replace_scan f1 s old new = replace_scan f2 s old new.
Proof.
  induction f1 as [|f1 IH]; intros f2 s H1 H2.
  - destruct s; [|simpl in H1; lia]. now rewrite !replace_scan_nil.
  - destruct f2 as [|f2].
    + destruct s; [|simpl in H2; lia]. reflexivity.
    + destruct s as [|c s']; [reflexivity|].
      cbn [replace_scan]. destruct (startswith (c :: s') old).
      * f_equal.
        assert (length (skipn (length old) (c :: s')) < length (c :: s'))
          by (apply skipn_old_shorter; discriminate).
        apply IH; lia.
      * f_equal. simpl in *. apply IH; lia.
Qed.

Lemma replace_nil : replace [] old new = [].
Proof. unfold replace. destruct old; [congruence | reflexivity]. Qed.

Lemma replace_scan_length (s : str) :
  replace s old new = replace_scan (length s) s old new.
Proof. unfold replace. destruct old; [congruence | reflexivity]. Qed.

Lemma replace_unfold (c : ascii) (s : str) :
  replace (c :: s) old new =
    if startswith (c :: s) old
    then new ++ replace (skipn (length old) (c :: s)) old new
    else c :: replace s old new.
Proof.
  rewrite !replace_scan_length. cbn [length replace_scan].
  destruct (startswith (c :: s) old); [|reflexivity].
  f_equal. apply replace_scan_enough; [|lia].
  assert (length (skipn (length old) (c :: s)) < length (c :: s))
    by (apply skipn_old_shorter; discriminate).
  cbn [length] in *; lia.
Qed.

Lemma replace_scan_absent (fuel : nat) :
  forall s, contains old s = false -> replace_scan fuel s old new = s.
Proof.
  induction fuel as [|fuel IH]; intros s H; [reflexivity|].
  destruct s as [|c s]; [reflexivity|].
  apply contains_cons_false in H as [H1 H2].
  cbn [replace_scan]. rewrite H1. f_equal. now apply IH.
Qed.

Lemma split_scan_not_nil (fuel : nat) (s : str) : split_scan fuel s old <> [].
Proof.
  revert s. induction fuel as [|fuel IH]; intros s; cbn [split_scan];
    [discriminate|].
  destruct s as [|c s]; [discriminate|].
  destruct (startswith (c :: s) old); [discriminate|].
  destruct (split_scan fuel s old); discriminate.
Qed.

Lemma str_join_cons (j x : str) (l : list str) :
  l <> [] -> str_join j (x :: l) = x ++ j ++ str_join j l.
Proof. destruct l; [congruence | reflexivity]. Qed.

Lemma replace_scan_join (fuel : nat) :
  forall s, replace_scan fuel s old new = str_join new (split_scan fuel s old).
Proof.
  induction fuel as [|fuel IH]; intros s; [reflexivity|].
  destruct s as [|c s]; [reflexivity|].
  cbn [replace_scan split_scan].
  destruct (startswith (c :: s) old).
  - rewrite str_join_cons by apply split_scan_not_nil. cbn [app].
    now rewrite IH.
  - rewrite IH. pose proof (split_scan_not_nil fuel s) as Hn.
    destruct (split_scan fuel s old) as [|piece pieces]; [congruence|].
    destruct pieces; reflexivity.
Qed.

Lemma split_scan_join (fuel : nat) :
  forall s, str_join old (split_scan fuel s old) = s.
Proof.
  induction fuel as [|fuel IH]; intros s; [reflexivity|].
  destruct s as [|c s]; [reflexivity|].
  cbn [split_scan]. destruct (startswith (c :: s) old) eqn:E.
  - rewrite str_join_cons by apply split_scan_not_nil. rewrite IH.
    cbn [app]. symmetry. now apply startswith_skipn.
  - specialize (IH s). pose proof (split_scan_not_nil fuel s) as Hn.
    destruct (split_scan fuel s old) as [|piece pieces]; [congruence|].
    rewrite <- IH. destruct pieces; reflexivity.
Qed.

Lemma split_scan_count (fuel : nat) :
  forall s, length (split_scan fuel s old) = S (count_scan fuel s old).
Proof.
  induction fuel as [|fuel IH]; intros s; [reflexivity|].
  destruct s as [|c s]; [reflexivity|].
  cbn [split_scan count_scan]. destruct (startswith (c :: s) old).
  - cbn [length]. now rewrite IH.
  - rewrite <- IH. pose proof (split_scan_not_nil fuel s) as Hn.
    destruct (split_scan fuel s old); [congruence | reflexivity].
Qed.

Lemma startswith_nil_old : startswith [] old = false.
Proof. destruct old; [congruence | reflexivity]. Qed.

Lemma contains_nil_old : contains old [] = false.
Proof. rewrite contains_nil_r. apply startswith_nil_old. Qed.

Lemma split_scan_pieces (fuel : nat) :
  forall s, length s <= fuel ->
    Forall (fun piece => contains old piece = false) (split_scan fuel s old).
Proof.
  induction fuel as [|fuel IH]; intros s Hlen.
  - destruct s; [|cbn [length] in Hlen; lia]. cbn [split_scan].
    constructor; [apply contains_nil_old | constructor].
  - destruct s as [|c s].
    + cbn [split_scan]. constructor; [apply contains_nil_old | constructor].
    + cbn [split_scan]. destruct (startswith (c :: s) old) eqn:E.
      * constructor; [apply contains_nil_old|].
        apply IH.
        assert (length (skipn (length old) (c :: s)) < length (c :: s))
          by (apply skipn_old_shorter; discriminate).
        cbn [length] in *; lia.
      * assert (Hs : length s <= fuel) by (cbn [length] in Hlen; lia).
        pose proof (IH s Hs) as HF. pose proof (split_scan_join fuel s) as HJ.
        pose proof (split_scan_not_nil fuel s) as Hn.
        destruct (split_scan fuel s old) as [|piece pieces]; [congruence|].
        apply Forall_cons_iff in HF as [Hp HF']. constructor; [|assumption].
        rewrite contains_cons, Hp, orb_false_r.
        destruct (startswith (c :: piece) old) eqn:E'; [|reflexivity].
        assert (startswith (c :: s) old = true); [|congruence].
        rewrite <- HJ. destruct pieces as [|piece' pieces].
        -- exact E'.
        -- change (str_join old (piece :: piece' :: pieces))
             with (piece ++ old ++ str_join old (piece' :: pieces)).
           now apply (startswith_app_l _ (c :: piece)).
Qed.

End Scan.

(** The two embeddings of [str.split] agree on a separator of one
    character. *)
Lemma split_scan_sep (c : ascii) (fuel : nat) :
  forall s, length s <= fuel -> split_scan fuel s [c] = split_sep s c.
Proof.
  induction fuel as [|fuel IH]; intros s Hlen.
  - destruct s; [reflexivity | cbn [length] in Hlen; lia].
  - destruct s as [|x s]; [reflexivity|].
    cbn [split_scan split_sep startswith length skipn].
    rewrite startswith_nil, andb_true_r, Ascii.eqb_sym.
    cbn [length] in Hlen. rewrite IH by lia. reflexivity.
Qed.

Lemma str_split_sep (s : str) (c : ascii) :
  str_split s [c] = Some (split_sep s c).
Proof. unfold str_split. f_equal. now apply split_scan_sep. Qed.

(** A line without the pattern is left as it is by [replace]. *)
Lemma replace_absent (s old new : str) :
  contains old s = false -> replace s old new = s.
Proof.
  intros H. unfold replace. destruct old as [|o old'].
  - now rewrite contains_nil_l in H.
  - now apply replace_scan_absent.
Qed.

(** ** Components: [split_sep] and [str_join] *)

Lemma split_sep_not_nil (s : str) (c : ascii) : split_sep s c <> [].
Proof.
  destruct s as [|x s]; cbn [split_sep]; [discriminate|].
  destruct (Ascii.eqb x c); [discriminate|].
  destruct (split_sep s c); discriminate.
Qed.

Lemma split_sep_join (s : str) (c : ascii) : str_join [c] (split_sep s c) = s.
Proof.
  induction s as [|x s IH]; [reflexivity|].
  cbn [split_sep]. destruct (Ascii.eqb x c) eqn:E.
  - apply Ascii.eqb_eq in E. subst x.
    rewrite str_join_cons by apply split_sep_not_nil. now rewrite IH.
  - pose proof (split_sep_not_nil s c) as Hn.
    destruct (split_sep s c) as [|comp comps]; [congruence|].
    rewrite <- IH. destruct comps; reflexivity.
Qed.

Lemma split_sep_no_sep (s : str) (c : ascii) :
  Forall (fun comp => ~ In c comp) (split_sep s c).
Proof.
  induction s as [|x s IH]; cbn [split_sep].
  - constructor; [intros [] | constructor].
  - destruct (Ascii.eqb x c) eqn:E.
    + constructor; [intros [] | exact IH].
    + destruct (split_sep s c) as [|comp comps].
      * constructor; [|constructor]. intros [->|[]].
        now rewrite Ascii.eqb_refl in E.
      * apply Forall_cons_iff in IH as [H1 H2]. constructor; [|exact H2].
        intros [->|H]; [now rewrite Ascii.eqb_refl in E | now apply H1].
Qed.

Lemma split_sep_single (s : str) (c : ascii) :
  ~ In c s -> split_sep s c = [s].
Proof.
  induction s as [|x s IH]; intros H; [reflexivity|].
  cbn [split_sep]. destruct (Ascii.eqb x c) eqn:E.
  - apply Ascii.eqb_eq in E. subst x. exfalso. apply H. now left.
  - rewrite IH; [reflexivity|]. intros Hs. apply H. now right.
Qed.

Lemma split_sep_app (a b : str) (c : ascii) :
  ~ In c a -> split_sep (a ++ c :: b) c = a :: split_sep b c.
Proof.
  induction a as [|x a IH]; intros H.
  - cbn [app split_sep]. now rewrite Ascii.eqb_refl.
  - cbn [app split_sep]. destruct (Ascii.eqb x c) eqn:E.
    + apply Ascii.eqb_eq in E. subst x. exfalso. apply H. now left.
    + rewrite IH; [reflexivity|]. intros Hs. apply H. now right.
Qed.

Lemma split_sep_of_join (l : list str) (c : ascii) :
  l <> [] -> Forall (fun comp => ~ In c comp) l ->
  split_sep (str_join [c] l) c = l.
Proof.
  induction l as [|x l IH]; intros Hn HF; [congruence|].
  apply Forall_cons_iff in HF as [Hx HF]. destruct l as [|y l].
  - cbn [str_join]. now apply split_sep_single.
  - rewrite str_join_cons by discriminate. cbn [app].
    rewrite split_sep_app by exact Hx. f_equal. apply IH; [discriminate|exact HF].
Qed.

Lemma split_sep_repeat (k : nat) (s : str) (c : ascii) :
  split_sep (repeat c k ++ s) c = repeat [] k ++ split_sep s c.
Proof.
  induction k as [|k IH]; [reflexivity|].
  cbn [repeat app split_sep]. now rewrite Ascii.eqb_refl, IH.
Qed.

(** Appending text without a separator extends the last component. *)
Lemma split_sep_snoc (s y : str) (c : ascii) :
  ~ In c y ->
  split_sep (s ++ y) c =
    removelast (split_sep s c) ++ [last (split_sep s c) [] ++ y].
Proof.
  intros Hy. induction s as [|x s IH].
  - cbn [app]. now rewrite split_sep_single.
  - cbn [app split_sep]. destruct (Ascii.eqb x c).
    + rewrite IH. pose proof (split_sep_not_nil s c) as Hn.
      destruct (split_sep s c) as [|comp comps]; [congruence|]. reflexivity.
    + rewrite IH. pose proof (split_sep_not_nil s c) as Hn.
      destruct (split_sep s c) as [|comp comps]; [congruence|].
      destruct comps; reflexivity.
Qed.

Lemma str_join_snoc (j y : str) (l : list str) (x : str) :
  str_join j (l ++ [x ++ y]) = str_join j (l ++ [x]) ++ y.
Proof.
  induction l as [|z l IH]; [reflexivity|].
  cbn [app]. rewrite !str_join_cons by (destruct l; discriminate).
  rewrite IH. now rewrite <- !app_assoc.
Qed.

Lemma in_str_join (j : str) (l : list str) (x : ascii) :
  In x (str_join j l) -> In x j \/ exists comp, In comp l /\ In x comp.
Proof.
  induction l as [|y l IH]; [intros []|].
  destruct l as [|z l].
  - cbn [str_join]. intros H. right. exists y. split; [now left | exact H].
  - rewrite str_join_cons by discriminate. intros H.
    apply in_app_or in H as [H|H].
    + right. exists y. split; [now left | exact H].
    + apply in_app_or in H as [H|H]; [now left|].
      destruct (IH H) as [H'|(comp & Hc & Hx)]; [now left|].
      right. exists comp. split; [now right | exact Hx].
Qed.

Lemma in_comp_in_join (j : str) (l : list str) (comp : str) (x : ascii) :
  In comp l -> In x comp -> In x (str_join j l).
Proof.
  induction l as [|y l IH]; [intros []|].
  intros Hc Hx. destruct l as [|z l].
  - destruct Hc as [->|[]]. exact Hx.
  - rewrite str_join_cons by discriminate. destruct Hc as [->|Hc].
    + apply in_or_app. now left.
    + apply in_or_app. right. apply in_or_app. right. now apply IH.
Qed.

Lemma in_split_sep (s : str) (c : ascii) (comp : str) (x : ascii) :
  In comp (split_sep s c) -> In x comp -> In x s.
Proof.
  intros Hc Hx. rewrite <- (split_sep_join s c).
  now apply in_comp_in_join with comp.
Qed.

(** ** The loop of [normpath] *)

Lemma snoc_eq_middle {A : Type} (st : list A) (x : A) (a : list A) (y : A)
      (b : list A) :
  st ++ [x] = a ++ y :: b ->
  (b = [] /\ st = a /\ x = y) \/ (exists b', b = b' ++ [x] /\ st = a ++ y :: b').
Proof.
  intros H. destruct b as [|b1 b].
  - left. apply app_inj_tail in H as [H1 H2]. now repeat split.
  - right. destruct (exists_last (l := b1 :: b)) as (b' & z & Hb);
      [discriminate|].
    rewrite Hb in *. exists b'.
    change (a ++ y :: b' ++ [z]) with (a ++ (y :: b') ++ [z]) in H.
    rewrite app_assoc in H. apply app_inj_tail in H as [H1 H2].
    subst. now split.
Qed.

Lemma in_removelast {A : Type} (l : list A) (x : A) :
  In x (removelast l) -> In x l.
Proof.
  induction l as [|y l IH]; [intros []|].
  cbn [removelast]. destruct l as [|z l]; [intros []|].
  intros [->|H]; [now left | right; now apply IH].
Qed.

Section NormStep.

Variable slashes : nat.

Let step := os_path.norm_step slashes.

Lemma norm_step_cases (st : list str) (comp : str) :
  step st comp = st \/
  (step st comp = st ++ [comp] /\ comp <> [] /\ comp <> dot) \/
  (step st comp = removelast st /\ comp = dotdot).
Proof.
  unfold step, os_path.norm_step.
  destruct (str_eqb comp []) eqn:E1; [now left|].
  destruct (str_eqb comp dot) eqn:E2; [now left|].
  apply str_eqb_neq in E1, E2. cbn [orb].
  destruct (str_eqb comp dotdot) eqn:E3.
  - apply str_eqb_eq in E3. cbn [negb orb].
    destruct ((slashes =? 0)%nat && is_nil st
              || negb (is_nil st) && str_eqb (last st []) dotdot).
    + right. left. now repeat split.
    + destruct (is_nil st) eqn:E4; cbn [negb].
      * left. reflexivity.
      * right. right. now split.
  - cbn [negb orb]. right. left. now repeat split.
Qed.

Lemma norm_step_in (st : list str) (comp x : str) :
  In x (step st comp) -> In x st \/ x = comp.
Proof.
  destruct (norm_step_cases st comp) as [->|[(-> & _)|(-> & _)]]; intros H.
  - now left.
  - apply in_app_or in H as [H|[->|[]]]; [now left | now right].
  - left. now apply in_removelast.
Qed.

Lemma norm_step_in_tl (st : list str) (comp x : str) :
  In x (tl (step st comp)) -> In x (tl st) \/ x = comp.
Proof.
  destruct (norm_step_cases st comp) as [->|[(-> & _)|(-> & _)]]; intros H.
  - now left.
  - destruct st as [|y st]; [destruct H|]. cbn [app tl] in *.
    apply in_app_or in H as [H|[->|[]]]; [now left | now right].
  - left. destruct st as [|y st]; [destruct H|].
    cbn [removelast] in H. destruct st as [|z st]; [destruct H|].
    cbn [tl] in *. now apply in_removelast.
Qed.

Lemma fold_norm_in (l st : list str) (x : str) :
  In x (fold_left step l st) -> In x st \/ In x l.
Proof.
  revert st. induction l as [|comp l IH]; intros st H; [now left|].
  cbn [fold_left] in H. destruct (IH _ H) as [H'|H'].
  - destruct (norm_step_in _ _ _ H') as [H''| ->]; [now left | right; now left].
  - right. now right.
Qed.

Lemma fold_norm_in_tl (l st : list str) (x : str) :
  In x (tl (fold_left step l st)) -> In x (tl st) \/ In x l.
Proof.
  revert st. induction l as [|comp l IH]; intros st H; [now left|].
  cbn [fold_left] in H. destruct (IH _ H) as [H'|H'].
  - destruct (norm_step_in_tl _ _ _ H') as [H''| ->];
      [now left | right; now left].
  - right. now right.
Qed.

Lemma dotdots_first_prefix (st : list str) (y : str) :
  dotdots_first slashes (st ++ [y]) -> dotdots_first slashes st.
Proof.
  intros H a b ->. apply (H a (b ++ [y])). now rewrite <- app_assoc.
Qed.

Lemma norm_step_clean (st : list str) (comp : str) :
  ~ In sep comp -> Forall clean_comp st -> Forall clean_comp (step st comp).
Proof.
  intros Hs HF.
  destruct (norm_step_cases st comp) as [->|[(-> & H1 & H2)|(-> & _)]].
  - exact HF.
  - apply Forall_app. split; [exact HF|]. constructor; [|constructor].
    now repeat split.
  - apply Forall_forall. intros x Hx. apply in_removelast in Hx.
    revert x Hx. now apply Forall_forall.
Qed.

Lemma norm_step_dotdots (st : list str) (comp : str) :
  dotdots_first slashes st -> dotdots_first slashes (step st comp).
Proof.
  intros Hd. unfold step, os_path.norm_step.
  destruct (str_eqb comp [] || str_eqb comp dot); [exact Hd|].
  destruct (str_eqb comp dotdot) eqn:E3; cbn [negb orb].
  - apply str_eqb_eq in E3. subst comp.
    destruct (Nat.eqb slashes 0 && is_nil st) eqn:E4; cbn [orb].
    + apply andb_true_iff in E4 as [Hk Hst]. apply Nat.eqb_eq in Hk.
      destruct st; [|discriminate]. intros a b H. split; [exact Hk|].
      destruct a as [|? a]; [constructor|].
      destruct a; discriminate.
    + destruct (negb (is_nil st) && str_eqb (last st []) dotdot) eqn:E5.
      * apply andb_true_iff in E5 as [Hst Hl]. apply str_eqb_eq in Hl.
        destruct (exists_last (l := st)) as (st' & y & ->);
          [destruct st; [discriminate | discriminate]|].
        rewrite last_last in Hl. subst y.
        destruct (Hd st' [] eq_refl) as [Hk Hall].
        intros a b H. split; [exact Hk|].
        assert (Hfull : Forall (eq dotdot) ((st' ++ [dotdot]) ++ [dotdot])).
        { apply Forall_app. split; [|now repeat constructor].
          apply Forall_app. split; [exact Hall | now repeat constructor]. }
        rewrite H in Hfull. now apply Forall_app in Hfull as [Ha _].
      * destruct (is_nil st) eqn:E6; cbn [negb]; [exact Hd|].
        destruct (exists_last (l := st)) as (st' & y & ->);
          [destruct st; [discriminate | discriminate]|].
        rewrite removelast_last. now apply dotdots_first_prefix with y.
  - apply str_eqb_neq in E3. intros a b H.
    apply snoc_eq_middle in H as [(_ & _ & H)|(b' & _ & H)];
      [congruence|]. now apply (Hd a b').
Qed.

Lemma fold_norm_clean (l st : list str) :
  Forall (fun comp => ~ In sep comp) l -> Forall clean_comp st ->
  Forall clean_comp (fold_left step l st).
Proof.
  revert st. induction l as [|comp l IH]; intros st Hl HF; [exact HF|].
  apply Forall_cons_iff in Hl as [Hc Hl]. cbn [fold_left].
  apply IH; [exact Hl|]. now apply norm_step_clean.
Qed.

Lemma fold_norm_dotdots (l st : list str) :
  dotdots_first slashes st -> dotdots_first slashes (fold_left step l st).
Proof.
  revert st. induction l as [|comp l IH]; intros st Hd; [exact Hd|].
  cbn [fold_left]. apply IH. now apply norm_step_dotdots.
Qed.

(** On components that are already in their final shape the loop changes
    nothing. *)
Lemma fold_norm_fixed (l st : list str) :
  Forall clean_comp l -> dotdots_first slashes (st ++ l) ->
  fold_left step l st = st ++ l.
Proof.
  revert st. induction l as [|comp l IH]; intros st Hl Hd.
  - now rewrite app_nil_r.
  - apply Forall_cons_iff in Hl as [(H1 & H2 & _) Hl]. cbn [fold_left].
    assert (Hstep : step st comp = st ++ [comp]).
    { unfold step, os_path.norm_step.
      apply str_eqb_neq in H1, H2. rewrite H1, H2. cbn [orb].
      destruct (str_eqb comp dotdot) eqn:E3; cbn [negb orb]; [|reflexivity].
      apply str_eqb_eq in E3. subst comp.
      destruct (Hd st l eq_refl) as [Hk Hall]. rewrite Hk.
      destruct st as [|s0 st0]; [reflexivity|].
      destruct (exists_last (l := s0 :: st0)) as (st' & y & Hst);
        [discriminate|].
      rewrite Hst in *. rewrite last_last.
      apply Forall_app in Hall as [_ Hy].
      apply Forall_cons_iff in Hy as [<- _]. rewrite str_eqb_refl.
      destruct st'; reflexivity. }
    rewrite Hstep. rewrite IH; [now rewrite <- app_assoc | exact Hl |].
    now rewrite <- app_assoc.
Qed.

Lemma fold_norm_skip_empty (k : nat) (l st : list str) :
  fold_left step (repeat [] k ++ l) st = fold_left step l st.
Proof.
  induction k as [|k IH]; [reflexivity|]. cbn [repeat app fold_left].
  exact IH.
Qed.

End NormStep.

(** ** [normpath] *)

Lemma normpath_render (path : str) :
  path <> [] ->
  os_path.normpath path = render (os_path.initial_slashes path) (norm_comps path).
Proof. destruct path; [congruence | reflexivity]. Qed.

Lemma initial_slashes_le (path : str) : os_path.initial_slashes path <= 2.
Proof.
  unfold os_path.initial_slashes.
  destruct (startswith path [sep]); [|lia].
  destruct (startswith path [sep; sep] && negb (startswith path [sep; sep; sep]));
    lia.
Qed.

Lemma norm_comps_clean (path : str) : Forall clean_comp (norm_comps path).
Proof.
  apply fold_norm_clean; [apply split_sep_no_sep | constructor].
Qed.

Lemma norm_comps_dotdots (path : str) :
  dotdots_first (os_path.initial_slashes path) (norm_comps path).
Proof.
  apply fold_norm_dotdots. intros a b H. destruct a; discriminate.
Qed.

Lemma clean_join_head (st : list str) :
  st <> [] -> Forall clean_comp st ->
  exists x rest, str_join [sep] st = x :: rest /\ x <> sep.
Proof.
  intros Hn HF. destruct st as [|comp st]; [congruence|].
  apply Forall_cons_iff in HF as [(H1 & _ & H3) _].
  destruct comp as [|x comp]; [congruence|].
  assert (Hx : x <> sep) by (intros ->; apply H3; now left).
  destruct st as [|y st].
  - now exists x, comp.
  - rewrite str_join_cons by discriminate. cbn [app]. now eexists x, _.
Qed.

Lemma render_not_nil (k : nat) (st : list str) :
  st <> [] -> Forall clean_comp st ->
  render k st = repeat sep k ++ str_join [sep] st.
Proof.
  intros Hn HF. destruct (clean_join_head Hn HF) as (x & rest & E & _).
  unfold render. rewrite E. destruct k; reflexivity.
Qed.

Lemma initial_slashes_render (k : nat) (st : list str) :
  k <= 2 -> st <> [] -> Forall clean_comp st ->
  os_path.initial_slashes (repeat sep k ++ str_join [sep] st) = k.
Proof.
  intros Hk Hn HF. destruct (clean_join_head Hn HF) as (x & rest & E & Hx).
  rewrite E. apply Ascii.eqb_neq in Hx.
  assert (Hx' : Ascii.eqb sep x = false) by now rewrite Ascii.eqb_sym.
  destruct k as [|[|[|k]]]; [| | |lia]; unfold os_path.initial_slashes;
    cbn [repeat app startswith]; rewrite ?Ascii.eqb_refl, ?Hx'; reflexivity.
Qed.

Lemma render_nil_cases (k : nat) :
  k <= 2 -> os_path.normpath (render k []) = render k [].
Proof.
  intros Hk. destruct k as [|[|[|k]]]; [reflexivity..|lia].
Qed.

Lemma normpath_fixed (k : nat) (st : list str) :
  k <= 2 -> st <> [] -> Forall clean_comp st -> dotdots_first k st ->
  os_path.normpath (repeat sep k ++ str_join [sep] st)
  = repeat sep k ++ str_join [sep] st.
Proof.
  intros Hk Hn HF Hd.
  destruct (clean_join_head Hn HF) as (x & rest & Ej & Hx).
  rewrite normpath_render by (rewrite Ej; destruct k; discriminate).
  unfold norm_comps. rewrite (initial_slashes_render Hk Hn HF).
  rewrite split_sep_repeat, fold_norm_skip_empty.
  rewrite split_sep_of_join; [|exact Hn|].
  - rewrite fold_norm_fixed; [|exact HF | exact Hd].
    cbn [app]. now apply render_not_nil.
  - revert HF. apply Forall_impl. now intros a (_ & _ & H).
Qed.

(** [normpath] is idempotent. *)
Lemma normpath_idempotent (path : str) :
  os_path.normpath (os_path.normpath path) = os_path.normpath path.
Proof.
  destruct path as [|c path']; [reflexivity|].
  set (path := c :: path').
  rewrite (@normpath_render path) by discriminate.
  pose proof (initial_slashes_le path) as Hk.
  pose proof (norm_comps_clean path) as HF.
  pose proof (norm_comps_dotdots path) as Hd.
  destruct (norm_comps path) as [|comp st] eqn:E.
  - now apply render_nil_cases.
  - rewrite <- E in *.
    assert (Hn : norm_comps path <> []) by (rewrite E; discriminate).
    rewrite (render_not_nil _ Hn HF). now apply normpath_fixed.
Qed.

(** [normpath] never yields the empty string. *)
Lemma normpath_not_nil (path : str) : os_path.normpath path <> [].
Proof.
  unfold os_path.normpath. destruct (is_nil path); [discriminate|].
  match goal with |- (if is_nil ?p then _ else _) <> _ =>
    destruct p; cbn [is_nil]; discriminate end.
Qed.

(** ** Occurrences of a separator followed by a name *)

Lemma startswith_hd_comp (s v : str) :
  ~ In sep v -> startswith s v = startswith (hd [] (split_sep s sep)) v.
Proof.
  revert v. induction s as [|x s IH]; intros v Hv; [reflexivity|].
  destruct v as [|y v]; [now rewrite !startswith_nil|].
  assert (Hy : y <> sep) by (intros ->; apply Hv; now left).
  assert (Hv' : ~ In sep v) by (intros H; apply Hv; now right).
  cbn [split_sep]. destruct (Ascii.eqb x sep) eqn:E.
  - apply Ascii.eqb_eq in E. subst x. cbn [hd startswith].
    apply Ascii.eqb_neq in Hy. now rewrite Hy.
  - pose proof (split_sep_not_nil s sep) as Hn. specialize (IH v Hv').
    destruct (split_sep s sep) as [|comp comps]; [congruence|].
    cbn [hd startswith] in *. now rewrite IH.
Qed.

Lemma initial_slashes_other (c : ascii) (path : str) :
  c <> sep -> os_path.initial_slashes (c :: path) = 0.
Proof.
  intros H. unfold os_path.initial_slashes. cbn [startswith].
  apply Ascii.eqb_neq in H. rewrite Ascii.eqb_sym, H. reflexivity.
Qed.

Lemma initial_slashes_sep (path : str) :
  exists k, os_path.initial_slashes (sep :: path) = S k.
Proof.
  unfold os_path.initial_slashes. cbn [startswith].
  rewrite Ascii.eqb_refl, startswith_nil. cbn [andb].
  destruct (startswith path [sep] && negb (startswith path [sep; sep]));
    eexists; reflexivity.
Qed.

(** Below a root every component kept comes from behind a separator. *)
Lemma norm_comps_rooted (path : str) (comp : str) :
  In comp (norm_comps (sep :: path)) ->
  In comp (tl (split_sep (sep :: path) sep)).
Proof.
  unfold norm_comps. cbn [split_sep]. rewrite Ascii.eqb_refl.
  cbn [fold_left tl]. intros H.
  change (os_path.norm_step (os_path.initial_slashes (sep :: path)) [] [])
    with (@nil str) in H.
  now apply fold_norm_in in H as [[]|H].
Qed.

(** Without a root the same holds from the second component on. *)
Lemma norm_comps_relative (c : ascii) (path : str) (comp : str) :
  c <> sep ->
  In comp (tl (norm_comps (c :: path))) ->
  In comp (tl (split_sep (c :: path) sep)).
Proof.
  intros Hc. unfold norm_comps. cbn [split_sep].
  apply Ascii.eqb_neq in Hc. rewrite Hc.
  pose proof (split_sep_not_nil path sep) as Hn.
  destruct (split_sep path sep) as [|comp0 comps]; [congruence|].
  cbn [fold_left tl]. intros H.
  apply fold_norm_in_tl in H as [H|H]; [|exact H].
  exfalso. revert H.
  match goal with |- In _ (tl (os_path.norm_step ?k [] ?x)) -> _ =>
    destruct (norm_step_cases k [] x) as [->|[(-> & _)|(-> & _)]] end;
    intros [].
Qed.

Section AfterSep.

Variable w : str.
Hypothesis w_no_sep : ~ In sep w.

Lemma contains_sep_comps (s : str) :
  contains (sep :: w) s =
    existsb (fun comp => startswith comp w) (tl (split_sep s sep)).
Proof.
  induction s as [|x s IH]; [reflexivity|].
  rewrite contains_cons. cbn [split_sep startswith].
  destruct (Ascii.eqb x sep) eqn:E.
  - apply Ascii.eqb_eq in E. subst x. rewrite Ascii.eqb_refl. cbn [andb tl].
    rewrite IH, (@startswith_hd_comp s w w_no_sep).
    pose proof (split_sep_not_nil s sep) as Hn.
    destruct (split_sep s sep) as [|comp comps]; [congruence|]. reflexivity.
  - rewrite Ascii.eqb_sym, E. cbn [andb orb]. rewrite IH.
    pose proof (split_sep_not_nil s sep) as Hn.
    destruct (split_sep s sep) as [|comp comps]; [congruence|]. reflexivity.
Qed.

Hypothesis w_not_nil : w <> [].

Lemma startswith_nil_w : startswith [] w = false.
Proof. destruct w; [congruence | reflexivity]. Qed.

Lemma existsb_repeat_nil (k : nat) (l : list str) :
  existsb (fun comp => startswith comp w) (repeat [] k ++ l)
  = existsb (fun comp => startswith comp w) l.
Proof.
  induction k as [|k IH]; [reflexivity|].
  cbn [repeat app existsb]. now rewrite startswith_nil_w, IH.
Qed.

(** [normpath] brings no separator in front of a name that had none. *)
Lemma normpath_no_new_occurrence (path : str) :
  contains (sep :: w) path = false ->
  contains (sep :: w) (os_path.normpath path) = false.
Proof.
  intros H. destruct path as [|c path'].
  { rewrite contains_sep_comps. reflexivity. }
  rewrite normpath_render by discriminate.
  pose proof (initial_slashes_le (c :: path')) as Hk.
  pose proof (norm_comps_clean (c :: path')) as HF.
  rewrite contains_sep_comps in H.
  assert (Htl : forall comp, In comp (tl (split_sep (c :: path') sep)) ->
                             startswith comp w = false).
  { intros comp Hc. destruct (startswith comp w) eqn:E; [|reflexivity].
    rewrite <- H. symmetry. apply existsb_exists. now exists comp. }
  clear H.
  destruct (norm_comps (c :: path')) as [|comp st] eqn:E.
  - destruct (os_path.initial_slashes (c :: path')) as [|[|[|k]]]; [| | |lia];
      rewrite contains_sep_comps; cbn [render str_join Nat.eqb repeat app
        is_nil dot list_ascii_of_string split_sep tl existsb];
      rewrite ?Ascii.eqb_refl; cbn [tl existsb];
      rewrite ?startswith_nil_w; reflexivity.
  - rewrite <- E in *.
    assert (Hn : norm_comps (c :: path') <> []) by (rewrite E; discriminate).
    rewrite (render_not_nil _ Hn HF), contains_sep_comps, split_sep_repeat.
    rewrite split_sep_of_join;
      [|exact Hn | revert HF; apply Forall_impl; now intros a (_ & _ & Ha)].
    match goal with |- ?b = false => destruct b eqn:Ex; [|reflexivity] end.
    apply existsb_exists in Ex as (x & Hx1 & Hx2).
    destruct (ascii_dec c sep) as [->|Hc].
    + destruct (initial_slashes_sep path') as [k Ek]. rewrite Ek in Hx1.
      cbn [repeat app tl] in Hx1. apply in_app_or in Hx1 as [Hx1|Hx1].
      * apply repeat_spec in Hx1. subst x. now rewrite startswith_nil_w in Hx2.
      * apply norm_comps_rooted in Hx1. rewrite (Htl x Hx1) in Hx2.
        discriminate.
    + rewrite (initial_slashes_other path' Hc) in Hx1. cbn [repeat app] in Hx1.
      apply norm_comps_relative in Hx1; [|exact Hc].
      rewrite (Htl x Hx1) in Hx2. discriminate.
Qed.

End AfterSep.

(** ** Lines *)

Lemma LF_not_CR : LF <> CR.
Proof. discriminate. Qed.

Lemma plain_nil : plain [].
Proof. split; intros []. Qed.

Lemma plain_cons (c : ascii) (s : str) :
  c <> LF -> c <> CR -> plain s -> plain (c :: s).
Proof.
  intros H1 H2 [H3 H4]. split; intros [H|H]; congruence || auto.
Qed.

Lemma plain_tail (c : ascii) (s : str) : plain (c :: s) -> plain s.
Proof. intros [H1 H2]. split; intros H; [apply H1 | apply H2]; now right. Qed.

Lemma plain_chars (s t : str) :
  plain s -> (forall x, In x t -> In x s \/ (x <> LF /\ x <> CR)) -> plain t.
Proof.
  intros [H1 H2] H. split; intros Hx; destruct (H _ Hx) as [H'|[H3 H4]];
    auto.
Qed.

Lemma translate_newlines_no_CR (s : str) :
  ~ In CR s -> translate_newlines s = s.
Proof.
  induction s as [|c s IH]; intros H; [reflexivity|].
  cbn [translate_newlines]. destruct (Ascii.eqb c CR) eqn:E.
  - apply Ascii.eqb_eq in E. subst c. exfalso. apply H. now left.
  - f_equal. apply IH. intros Hs. apply H. now right.
Qed.

Lemma translate_newlines_bounded (n : nat) :
  forall s, length s <= n -> ~ In CR (translate_newlines s).
Proof.
  induction n as [|n IH]; intros s Hlen.
  - destruct s; [intros [] | cbn [length] in Hlen; lia].
  - destruct s as [|c s]; [intros []|]. cbn [length] in Hlen.
    cbn [translate_newlines]. destruct (Ascii.eqb c CR) eqn:E.
    + intros [H|H]; [discriminate|]. revert H.
      destruct s as [|d s]; [intros []|].
      destruct (Ascii.eqb d LF); apply IH; cbn [length] in *; lia.
    + intros [H|H].
      * subst c. now rewrite Ascii.eqb_refl in E.
      * revert H. apply IH. lia.
Qed.

Lemma translate_newlines_clean (s : str) : ~ In CR (translate_newlines s).
Proof. now apply translate_newlines_bounded with (length s). Qed.

Lemma split_lines_ok (s : str) : ~ In CR s -> lines_ok (split_lines s).
Proof.
  induction s as [|c s IH]; intros Hcr; [exact I|].
  assert (Hc : c <> CR) by (intros ->; apply Hcr; now left).
  assert (Hs : ~ In CR s) by (intros H; apply Hcr; now right).
  specialize (IH Hs). cbn [split_lines]. destruct (Ascii.eqb c LF) eqn:E.
  - assert (Ht : terminated [LF]) by (exists []; split; [reflexivity | apply plain_nil]).
    cbn [lines_ok]. destruct (split_lines s); [now left | now split].
  - apply Ascii.eqb_neq in E. destruct (split_lines s) as [|line lines].
    + cbn [lines_ok]. right. split; [discriminate|].
      apply plain_cons; auto using plain_nil.
    + cbn [lines_ok] in *. destruct lines as [|line' lines].
      * destruct IH as [(body & -> & Hb)|(Hn & Hp)].
        -- left. exists (c :: body). split; [reflexivity | now apply plain_cons].
        -- right. split; [discriminate | now apply plain_cons].
      * destruct IH as [(body & -> & Hb) IH]. split; [|exact IH].
        exists (c :: body). split; [reflexivity | now apply plain_cons].
Qed.

Lemma read_lines_ok (text : str) : lines_ok (read_lines text).
Proof. apply split_lines_ok, translate_newlines_clean. Qed.

Lemma split_lines_terminated (body rest : str) :
  ~ In LF body ->
  split_lines (body ++ LF :: rest) = (body ++ [LF]) :: split_lines rest.
Proof.
  induction body as [|c body IH]; intros H; [reflexivity|].
  cbn [app split_lines]. destruct (Ascii.eqb c LF) eqn:E.
  - apply Ascii.eqb_eq in E. subst c. exfalso. apply H. now left.
  - rewrite IH; [reflexivity|]. intros Hb. apply H. now right.
Qed.

Lemma split_lines_unterminated (line : str) :
  line <> [] -> ~ In LF line -> split_lines line = [line].
Proof.
  induction line as [|c line IH]; intros Hn H; [congruence|].
  cbn [split_lines]. destruct (Ascii.eqb c LF) eqn:E.
  - apply Ascii.eqb_eq in E. subst c. exfalso. apply H. now left.
  - destruct line as [|d line]; [reflexivity|].
    rewrite IH; [reflexivity | discriminate |]. intros Hb. apply H. now right.
Qed.

Lemma terminated_no_CR (line : str) : terminated line -> ~ In CR line.
Proof.
  intros (body & -> & _ & H) Hin. apply in_app_or in Hin as [Hin|[Hin|[]]];
    [auto | discriminate].
Qed.

Lemma lines_ok_no_CR (lines : list str) :
  lines_ok lines -> ~ In CR (concat lines).
Proof.
  induction lines as [|line lines IH]; intros H; [intros []|].
  cbn [concat]. intros Hin. apply in_app_or in Hin as [Hin|Hin].
  - cbn [lines_ok] in H. destruct lines.
    + destruct H as [H|[_ [_ H]]]; [now apply terminated_no_CR in H | auto].
    + destruct H as [H _]. now apply terminated_no_CR in H.
  - revert Hin. apply IH. cbn [lines_ok] in H. destruct lines; [exact I|].
    apply H.
Qed.

Lemma split_lines_concat (lines : list str) :
  lines_ok lines -> split_lines (concat lines) = lines.
Proof.
  induction lines as [|line lines IH]; intros H; [reflexivity|].
  cbn [lines_ok concat] in *. destruct lines as [|line' lines].
  - cbn [concat]. rewrite app_nil_r.
    destruct H as [(body & -> & Hb & _)|(Hn & Hp & _)].
    + exact (@split_lines_terminated body [] Hb).
    + now apply split_lines_unterminated.
  - destruct H as [(body & -> & Hb & _) H]. rewrite <- app_assoc. cbn [app].
    rewrite split_lines_terminated by exact Hb. f_equal. now apply IH.
Qed.

(** Reading back what was written line by line gives the same lines. *)
Lemma read_lines_concat (lines : list str) :
  lines_ok lines -> read_lines (concat lines) = lines.
Proof.
  intros H. unfold read_lines.
  rewrite translate_newlines_no_CR by now apply lines_ok_no_CR.
  now apply split_lines_concat.
Qed.

Lemma lines_ok_map (f : str -> str) (lines : list str) :
  (forall line, terminated line -> terminated (f line)) ->
  (forall line, unterminated line -> unterminated (f line)) ->
  lines_ok lines -> lines_ok (map f lines).
Proof.
  intros Ht Hu. induction lines as [|line lines IH]; intros H; [exact I|].
  cbn [map lines_ok] in *. destruct lines as [|line' lines].
  - cbn [map]. destruct H; [left | right]; auto.
  - cbn [map] in *. destruct H as [H1 H2]. split; auto.
Qed.

(** ** The repair of one line keeps its line structure *)

Lemma in_skipn_in {A : Type} (n : nat) (l : list A) (x : A) :
  In x (skipn n l) -> In x l.
Proof.
  intros H. rewrite <- (firstn_skipn n l). apply in_or_app. now right.
Qed.

Lemma startswith_snoc_other (s p : str) (y : ascii) :
  ~ In y p -> startswith (s ++ [y]) p = startswith s p.
Proof.
  revert p. induction s as [|c s IH]; intros p Hy.
  - destruct p as [|x p]; [reflexivity|]. cbn [app startswith].
    assert (Hx : x <> y) by (intros ->; apply Hy; now left).
    apply Ascii.eqb_neq in Hx. now rewrite Hx.
  - destruct p as [|x p]; [reflexivity|]. cbn [app startswith].
    rewrite IH; [reflexivity|]. intros H. apply Hy. now right.
Qed.

Section ReplaceLines.

Variables old new : str.
Hypothesis old_not_empty : old <> [].

Lemma replace_scan_chars (fuel : nat) :
  forall s x, In x (replace_scan fuel s old new) -> In x s \/ In x new.
Proof.
  induction fuel as [|fuel IH]; intros s x H; [now left|].
  destruct s as [|c s]; [now left|]. cbn [replace_scan] in H.
  destruct (startswith (c :: s) old).
  - apply in_app_or in H as [H|H]; [now right|].
    destruct (IH _ _ H) as [H'|H']; [left | now right].
    now apply in_skipn_in in H'.
  - destruct H as [->|H]; [left; now left|].
    destruct (IH _ _ H) as [H'|H']; [left; now right | now right].
Qed.

Lemma replace_chars (s : str) (x : ascii) :
  In x (replace s old new) -> In x s \/ In x new.
Proof. rewrite (replace_scan_length new old_not_empty). apply replace_scan_chars. Qed.

Lemma replace_plain (s : str) : plain s -> plain new -> plain (replace s old new).
Proof.
  intros [H1 H2] [H3 H4]. split; intros H; apply replace_chars in H as [H|H];
    auto.
Qed.

Lemma replace_snoc_bounded (y : ascii) (n : nat) :
  ~ In y old ->
  forall s, length s <= n ->
    replace (s ++ [y]) old new = replace s old new ++ [y].
Proof.
  intros Hy. induction n as [|n IH]; intros s Hlen.
  - destruct s; [|cbn [length] in Hlen; lia]. cbn [app].
    rewrite (replace_unfold new old_not_empty), (replace_nil new old_not_empty).
    pose proof (@startswith_snoc_other [] old y Hy) as Hs. cbn [app] in Hs.
    now rewrite Hs, (startswith_nil_old old_not_empty).
  - destruct s as [|c s].
    + apply IH. cbn [length]. lia.
    + cbn [app]. rewrite !(replace_unfold new old_not_empty).
      change (c :: s ++ [y]) with ((c :: s) ++ [y]).
      rewrite (@startswith_snoc_other (c :: s) old y Hy).
      destruct (startswith (c :: s) old) eqn:E.
      * apply startswith_length in E. rewrite skipn_app.
        replace (length old - length (c :: s)) with 0 by lia.
        cbn [skipn]. rewrite IH; [now rewrite app_assoc|].
        pose proof (skipn_old_shorter old_not_empty (s := c :: s)) as Hsk.
        cbn [length] in *. specialize (Hsk ltac:(discriminate)). lia.
      * cbn [app]. rewrite IH; [reflexivity|]. cbn [length] in Hlen. lia.
Qed.

Lemma replace_snoc (y : ascii) (s : str) :
  ~ In y old -> replace (s ++ [y]) old new = replace s old new ++ [y].
Proof. intros Hy. now apply replace_snoc_bounded with (length s). Qed.

End ReplaceLines.

Lemma snoc_LF_not_nil (s : str) : s ++ [LF] <> [].
Proof. destruct s; discriminate. Qed.

Lemma snoc_LF_not_dot (s : str) : s ++ [LF] <> dot.
Proof.
  change dot with ([] ++ [extsep]). intros H.
  apply app_inj_tail in H as [_ H]. discriminate.
Qed.

Lemma snoc_LF_not_dotdot (s : str) : s ++ [LF] <> dotdot.
Proof.
  change dotdot with ([extsep] ++ [extsep]). intros H.
  apply app_inj_tail in H as [_ H]. discriminate.
Qed.

Lemma normpath_chars (path : str) (x : ascii) :
  In x (os_path.normpath path) -> In x path \/ x = sep \/ x = extsep.
Proof.
  destruct path as [|c path'].
  { intros [<-|[]]. right. now right. }
  rewrite normpath_render by discriminate.
  pose proof (initial_slashes_le (c :: path')) as Hk.
  pose proof (norm_comps_clean (c :: path')) as HF.
  destruct (norm_comps (c :: path')) as [|comp st] eqn:E.
  - destruct (os_path.initial_slashes (c :: path')) as [|[|[|k]]]; [| | |lia];
      cbn; intuition.
  - rewrite <- E in *.
    assert (Hn : norm_comps (c :: path') <> []) by (rewrite E; discriminate).
    rewrite (render_not_nil _ Hn HF). intros H.
    apply in_app_or in H as [H|H].
    + apply repeat_spec in H. right. now left.
    + apply in_str_join in H as [[<-|[]]|(comp' & Hc & Hx)]; [right; now left|].
      left. apply fold_norm_in in Hc as [[]|Hc].
      now apply in_split_sep with (c := sep) (comp := comp').
Qed.

Lemma normpath_snoc_LF (body : str) :
  exists body',
    os_path.normpath (body ++ [LF]) = body' ++ [LF]
    /\ forall x, In x body' -> In x body \/ x = sep.
Proof.
  assert (Hsep : ~ In sep [LF]) by (intros [H|[]]; discriminate).
  rewrite normpath_render by apply snoc_LF_not_nil.
  set (k := os_path.initial_slashes (body ++ [LF])).
  unfold norm_comps. fold k. rewrite (@split_sep_snoc body [LF] sep Hsep), fold_left_app.
  set (L := split_sep body sep).
  set (st := fold_left (os_path.norm_step k) (removelast L) []).
  set (lst := last L []).
  assert (Hstep : fold_left (os_path.norm_step k) [lst ++ [LF]] st
                  = st ++ [lst ++ [LF]]).
  { cbn [fold_left]. unfold os_path.norm_step.
    pose proof (snoc_LF_not_nil lst) as H1. pose proof (snoc_LF_not_dot lst) as H2.
    pose proof (snoc_LF_not_dotdot lst) as H3.
    apply str_eqb_neq in H1, H2, H3. now rewrite H1, H2, H3. }
  rewrite Hstep. exists (repeat sep k ++ str_join [sep] (st ++ [lst])). split.
  - unfold render. rewrite str_join_snoc.
    destruct k; cbn [Nat.eqb].
    + cbn [repeat app].
      destruct (str_join [sep] (st ++ [lst]) ++ [LF]) eqn:E; [|reflexivity].
      now apply snoc_LF_not_nil in E.
    + cbn [repeat app is_nil]. now rewrite <- app_assoc.
  - intros x H. apply in_app_or in H as [H|H].
    + apply repeat_spec in H. now right.
    + apply in_str_join in H as [[<-|[]]|(comp & Hc & Hx)]; [now right|].
      left. apply in_split_sep with (c := sep) (comp := comp); [|exact Hx].
      fold L. apply in_app_or in Hc as [Hc|[<-|[]]].
      * apply fold_norm_in in Hc as [[]|Hc]. now apply in_removelast.
      * unfold lst. pose proof (split_sep_not_nil body sep) as Hn. fold L in Hn.
        destruct (exists_last Hn) as (L' & z & ->). rewrite last_last.
        apply in_or_app. right. now left.
Qed.

Section SanitizeLines.

Variables current_directory target_directory : str.
Hypothesis current_plain : plain current_directory.
Hypothesis target_plain : plain target_directory.
Hypothesis target_not_empty : target_directory <> [].

Let san := sanitize_line current_directory target_directory.

Lemma sanitize_line_terminated (line : str) :
  terminated line -> terminated (san line).
Proof.
  intros (body & -> & Hb). unfold san, sanitize_line.
  rewrite (replace_snoc current_directory target_not_empty);
    [|apply target_plain].
  destruct (normpath_snoc_LF
              (replace body target_directory current_directory))
    as (body' & -> & Hchars).
  exists body'. split; [reflexivity|].
  apply plain_chars with (replace body target_directory current_directory).
  - now apply replace_plain.
  - intros x Hx. destruct (Hchars x Hx) as [H| ->]; [now left|].
    right. split; discriminate.
Qed.

Lemma sanitize_line_unterminated (line : str) :
  unterminated line -> unterminated (san line).
Proof.
  intros (Hn & Hp). unfold san, sanitize_line. split.
  - apply normpath_not_nil.
  - apply plain_chars with (replace line target_directory current_directory).
    + now apply replace_plain.
    + intros x Hx. apply normpath_chars in Hx as [H|[->| ->]]; [now left | |];
        right; split; discriminate.
Qed.

(** The lines of the repaired text are the repaired lines of the text. *)
Lemma read_lines_sanitize_text (text : str) :
  read_lines (sanitize_text text current_directory target_directory)
  = map san (read_lines text).
Proof.
  unfold sanitize_text. apply read_lines_concat.
  apply lines_ok_map;
    [exact sanitize_line_terminated | exact sanitize_line_unterminated
    | apply read_lines_ok].
Qed.

End SanitizeLines.

(** * The synctex repair *)

Lemma read_lines_not_nil (text : str) : text <> [] -> read_lines text <> [].
Proof.
  unfold read_lines. destruct text as [|c text]; [congruence|]. intros _.
  assert (H : translate_newlines (c :: text) <> []).
  { cbn [translate_newlines]. destruct (Ascii.eqb c CR); discriminate. }
  destruct (translate_newlines (c :: text)) as [|d t]; [congruence|].
  cbn [split_lines]. destruct (Ascii.eqb d LF); [discriminate|].
  destruct (split_lines t); discriminate.
Qed.

Lemma concat_not_nil (lines : list str) :
  lines <> [] -> (forall line, In line lines -> line <> []) ->
  concat lines <> [].
Proof.
  destruct lines as [|line lines]; [congruence|]. intros _ H.
  cbn [concat]. specialize (H line (or_introl eq_refl)).
  destruct line; [congruence | discriminate].
Qed.

(** ** What the normalization removes *)

Lemma fold_norm_junk (slashes : nat) (mid st : list str) :
  Forall (fun comp => comp = [] \/ comp = dot) mid ->
  fold_left (os_path.norm_step slashes) mid st = st.
Proof.
  induction 1 as [|comp mid Hc _ IH]; [reflexivity|].
  cbn [fold_left]. unfold os_path.norm_step at 2.
  destruct Hc as [-> | ->]; exact IH.
Qed.

Lemma no_dotdot_dotdots_first (slashes : nat) (st : list str) :
  Forall (fun comp => clean_comp comp /\ comp <> dotdot) st ->
  dotdots_first slashes st.
Proof.
  intros HF a b E. exfalso. rewrite E in HF.
  apply Forall_app in HF as [_ HF]. apply Forall_cons_iff in HF as [[_ H] _].
  now apply H.
Qed.

Lemma clean_part (st : list str) :
  Forall (fun comp => clean_comp comp /\ comp <> dotdot) st ->
  Forall clean_comp st.
Proof. apply Forall_impl. now intros comp [H _]. Qed.

(** Empty components and dots between clean components are dropped. *)
Lemma normpath_drops_junk (xs mid ys : list str) :
  xs <> [] ->
  Forall (fun comp => clean_comp comp /\ comp <> dotdot) (xs ++ ys) ->
  Forall (fun comp => comp = [] \/ comp = dot) mid ->
  os_path.normpath (str_join [sep] (xs ++ mid ++ ys))
  = str_join [sep] (xs ++ ys).
Proof.
  intros Hx HF Hm.
  pose proof (clean_part HF) as Hclean.
  assert (Hn : xs ++ ys <> []) by (destruct xs; [congruence | discriminate]).
  assert (Hraw : Forall (fun comp => ~ In sep comp) (xs ++ mid ++ ys)).
  { apply Forall_app in Hclean as [H1 H2].
    apply Forall_app. split; [|apply Forall_app; split].
    - revert H1. apply Forall_impl. now intros comp (_ & _ & H).
    - revert Hm. apply Forall_impl. intros comp [-> | ->]; [intros []|].
      intros [H|[]]. discriminate H.
    - revert H2. apply Forall_impl. now intros comp (_ & _ & H). }
  assert (Hhead : exists c rest,
             str_join [sep] (xs ++ mid ++ ys) = c :: rest /\ c <> sep).
  { destruct xs as [|x xs']; [congruence|].
    apply Forall_cons_iff in Hclean as [(Hne & _ & Hs) _].
    destruct x as [|c x']; [congruence|].
    exists c. cbn [app str_join].
    destruct (xs' ++ mid ++ ys); eexists; (split; [reflexivity|]);
      intros ->; apply Hs; now left. }
  destruct Hhead as (c & rest & Ej & Hc).
  rewrite normpath_render by (rewrite Ej; discriminate).
  unfold norm_comps. rewrite Ej, (initial_slashes_other rest Hc), <- Ej.
  rewrite split_sep_of_join;
    [| destruct xs; [congruence | discriminate] | exact Hraw].
  rewrite !fold_left_app.
  apply Forall_app in Hclean as [H1 H2].
  rewrite (@fold_norm_fixed 0 xs []);
    [| exact H1
     | cbn [app]; apply no_dotdot_dotdots_first;
       apply Forall_app in HF as [HF1 _]; exact HF1].
  cbn [app]. rewrite (@fold_norm_junk 0 mid xs Hm).
  rewrite (@fold_norm_fixed 0 ys xs);
    [| exact H2 | now apply no_dotdot_dotdots_first].
  rewrite render_not_nil; [reflexivity | exact Hn |].
  apply Forall_app. now split.
Qed.

Lemma str_join_junk_differs (xs mid ys : list str) :
  xs <> [] -> mid <> [] ->
  Forall (fun comp => ~ In sep comp) (xs ++ mid ++ ys) ->
  str_join [sep] (xs ++ ys) <> str_join [sep] (xs ++ mid ++ ys).
Proof.
  intros Hx Hm HF E. apply (f_equal (fun s => split_sep s sep)) in E.
  rewrite !split_sep_of_join in E;
    [| destruct xs; [congruence | discriminate] | exact HF
     | destruct xs; [congruence | discriminate] |].
  - apply (f_equal (@length str)) in E. rewrite !length_app in E.
    destruct mid; [congruence | cbn [length] in E; lia].
  - apply Forall_app in HF as [H1 H2]. apply Forall_app in H2 as [_ H2].
    apply Forall_app. now split.
Qed.

(** C10.  Every line goes through the lexical normalization, also a line
    without any occurrence of the remote root: the text written is the
    concatenation of one output per line read, each output is [normpath] of
    the substituted line, and for a line the substitution leaves alone it
    is [normpath] of the line itself.  Such a line is altered all the
    same: an untouched line made of components with empty components or
    dots between them, as in [a//b] and [a/./b], comes out without these,
    as [a/b], which is another string; so does the line [Input:1:./a//b.tex]
    of a mapping file. *)
Theorem sanitize_line_without_occurrence
        (text current_directory target_directory : str) :
  (exists newlines,
      sanitize_text text current_directory target_directory = concat newlines
      /\ Forall2
           (fun line newline =>
              newline
              = os_path.normpath
                  (replace line target_directory current_directory)
              /\ (contains target_directory line = false ->
                  newline = os_path.normpath line))
           (read_lines text) newlines)
  /\ (forall xs mid ys : list str,
        xs <> [] -> mid <> [] ->
        Forall (fun comp => clean_comp comp /\ comp <> dotdot) (xs ++ ys) ->
        Forall (fun comp => comp = [] \/ comp = dot) mid ->
        let line := str_join [sep] (xs ++ mid ++ ys) in
        contains target_directory line = false ->
        sanitize_line current_directory target_directory line
        = str_join [sep] (xs ++ ys)
        /\ sanitize_line current_directory target_directory line <> line)
  /\ contains SERVER_TARGET_DIR ("Input:1:./a//b.tex" ++ [LF]) = false
  /\ sanitize_line current_directory SERVER_TARGET_DIR
       ("Input:1:./a//b.tex" ++ [LF])
     = "Input:1:./a/b.tex" ++ [LF].
Proof.
  split; [|split; [|split; [reflexivity|]]].
  - exists (map (sanitize_line current_directory target_directory)
              (read_lines text)).
    split; [reflexivity|].
    induction (read_lines text) as [|line lines IH]; cbn [map]; constructor.
    + split; [reflexivity|]. intros H. unfold sanitize_line.
      now rewrite replace_absent.
    + exact IH.
  - intros xs mid ys Hx Hm HF Hj. cbn zeta. intros Hc.
    unfold sanitize_line. rewrite replace_absent by exact Hc.
    rewrite (@normpath_drops_junk xs mid ys Hx HF Hj). split; [reflexivity|].
    apply str_join_junk_differs; [exact Hx | exact Hm |].
    apply clean_part in HF. apply Forall_app in HF as [H1 H2].
    apply Forall_app. split; [|apply Forall_app; split].
    + revert H1. apply Forall_impl. now intros comp (_ & _ & H).
    + revert Hj. apply Forall_impl. intros comp [-> | ->]; [intros []|].
      intros [H|[]]. discriminate H.
    + revert H2. apply Forall_impl. now intros comp (_ & _ & H).
  - unfold sanitize_line. rewrite replace_absent by reflexivity.
    vm_compute. reflexivity.
Qed.

Example untouched_line_altered :
  sanitize_line "/home/u/proj" SERVER_TARGET_DIR ("Input:1:./a//b.tex" ++ [LF])
  = "Input:1:./a/b.tex" ++ [LF].
Proof. vm_compute. reflexivity. Qed.


(** The normalization is lexical: [..] removes the component before it
    without looking at any file system, and two leading separators stay. *)
Example normpath_is_lexical :
  os_path.normpath "/a/b/../c" = "/a/c"
  /\ os_path.normpath "//a//b/." = "//a/b"
  /\ os_path.normpath "../x/./y/" = "../x/y".
Proof. vm_compute. repeat split. Qed.

(** C5, as the code has it.  When neither directory string contains a
    line break and the remote root is not empty, the repaired file has as
    many lines as the file read, in the same order: its lines are the
    repaired lines of the file read. *)
Theorem sanitize_text_line_preserving
        (text current_directory target_directory : str) :
  plain current_directory -> plain target_directory ->
  target_directory <> [] ->
  let after := sanitize_text text current_directory target_directory in
  read_lines after
  = map (sanitize_line current_directory target_directory) (read_lines text)
  /\ length (read_lines after) = length (read_lines text).
Proof.
  intros Hc Ht Hn. cbn zeta.
  rewrite (read_lines_sanitize_text Hc Ht Hn). split; [reflexivity|].
  apply length_map.
Qed.

Lemma sanitize_text_line_preserving_witness :
  let text := "/tmp/topic/notes.tex:12:34" ++ [LF] ++ "x" ++ [CR; LF] in
  let after := sanitize_text text "/home/u/proj" SERVER_TARGET_DIR in
  read_lines after
  = map (sanitize_line "/home/u/proj" SERVER_TARGET_DIR) (read_lines text)
  /\ length (read_lines after) = length (read_lines text).
Proof.
  apply (@sanitize_text_line_preserving
           ("/tmp/topic/notes.tex:12:34" ++ [LF] ++ "x" ++ [CR; LF])
           "/home/u/proj" SERVER_TARGET_DIR).
  - split; vm_compute; intuition discriminate.
  - split; vm_compute; intuition discriminate.
  - discriminate.
Defined.

(** C5 as stated fails for a local directory whose name holds a line
    feed: one line is read, two are written. *)
Lemma line_count_counterexample :
  let text := "/tmp/x" ++ [LF] in
  let after := sanitize_text text ("a" ++ [LF] ++ "b") SERVER_TARGET_DIR in
  length (read_lines text) = 1
  /\ after = "a" ++ [LF] ++ "b/x" ++ [LF]
  /\ length (read_lines after) = 2
  /\ length (read_lines after) <> length (read_lines text).
Proof. vm_compute. repeat split; discriminate. Qed.

(** C4, as the code has it.  When neither directory string contains a
    line break and no line of the repaired file contains the remote root
    any more, repairing it again with the same parameters changes
    nothing. *)
Theorem sanitize_text_twice
        (text current_directory target_directory : str) :
  plain current_directory -> plain target_directory ->
  let once := sanitize_text text current_directory target_directory in
  (forall line, In line (read_lines once) ->
                contains target_directory line = false) ->
  sanitize_text once current_directory target_directory = once.
Proof.
  intros Hc Ht. cbn zeta. intros Hfree.
  destruct target_directory as [|t0 target'] eqn:Et.
  - (* an empty remote root occurs in every line: the file has no line *)
    destruct (read_lines text) as [|line lines] eqn:El.
    + unfold sanitize_text. rewrite El. reflexivity.
    + exfalso.
      assert (Hne : sanitize_text text current_directory [] <> []).
      { unfold sanitize_text. rewrite El. apply concat_not_nil; [discriminate|].
        intros l Hl. apply in_map_iff in Hl as (l0 & <- & _).
        apply normpath_not_nil. }
      apply read_lines_not_nil in Hne.
      destruct (read_lines (sanitize_text text current_directory []))
        as [|l ls] eqn:E; [congruence|].
      specialize (Hfree l (or_introl eq_refl)).
      now rewrite contains_nil_l in Hfree.
  - rewrite <- Et in *.
    assert (Hn : target_directory <> []) by (rewrite Et; discriminate).
    rewrite (read_lines_sanitize_text Hc Ht Hn) in Hfree.
    unfold sanitize_text at 1.
    rewrite (read_lines_sanitize_text Hc Ht Hn), map_map.
    unfold sanitize_text. f_equal. apply map_ext_in. intros line Hl.
    assert (Hfree' : contains target_directory
                       (sanitize_line current_directory target_directory line)
                     = false)
      by (apply Hfree, in_map, Hl).
    unfold sanitize_line at 1.
    rewrite (@replace_absent _ target_directory current_directory Hfree').
    apply normpath_idempotent.
Qed.

Lemma sanitize_text_twice_witness :
  let once := sanitize_text ("/tmp/topic/./notes.tex:12:34" ++ [LF])
                "/home/u/proj" SERVER_TARGET_DIR in
  sanitize_text once "/home/u/proj" SERVER_TARGET_DIR = once.
Proof.
  apply (@sanitize_text_twice ("/tmp/topic/./notes.tex:12:34" ++ [LF])
           "/home/u/proj" SERVER_TARGET_DIR).
  - split; vm_compute; intuition discriminate.
  - split; vm_compute; intuition discriminate.
  - intros line H. vm_compute in H. destruct H as [<-|[]]. vm_compute.
    reflexivity.
Defined.

(** C4 as stated fails when the local directory lies below the remote
    root: the second repair rewrites the prefix again. *)
Lemma sanitize_text_twice_counterexample :
  let text := "/tmp/topic/notes.tex:12:34" ++ [LF] in
  let once := sanitize_text text "/tmp/work" SERVER_TARGET_DIR in
  let twice := sanitize_text once "/tmp/work" SERVER_TARGET_DIR in
  once = "/tmp/work/topic/notes.tex:12:34" ++ [LF]
  /\ twice = "/tmp/work/work/topic/notes.tex:12:34" ++ [LF]
  /\ twice <> once.
Proof. vm_compute. repeat split; discriminate. Qed.

(** C1, as the code has it, for a remote root that is one directory under
    the root, as [/tmp] is.  The substitution replaces every one of the
    [count] occurrences: the line is its pieces joined by the remote root,
    no piece contains the remote root, and the substituted line is the
    same pieces joined by the local directory.  The repaired line is the
    normalization of that, and the normalization brings no occurrence
    back: when the substituted line has none, the repaired line has
    none. *)
Theorem sanitize_line_substitution (current_directory name line : str) :
  name <> [] -> ~ In sep name ->
  let target_directory := sep :: name in
  exists pieces,
    str_split line target_directory = Some pieces
    /\ length pieces = S (count line target_directory)
    /\ str_join target_directory pieces = line
    /\ Forall (fun piece => contains target_directory piece = false) pieces
    /\ replace line target_directory current_directory
       = str_join current_directory pieces
    /\ sanitize_line current_directory target_directory line
       = os_path.normpath (str_join current_directory pieces)
    /\ (contains target_directory (str_join current_directory pieces) = false ->
        contains target_directory
          (sanitize_line current_directory target_directory line) = false).
Proof.
  intros Hn Hs. cbn zeta.
  assert (Ht : sep :: name <> []) by discriminate.
  exists (split_scan (length line) line (sep :: name)).
  split; [reflexivity|].
  split; [now apply split_scan_count|].
  split; [now apply split_scan_join|].
  split; [apply split_scan_pieces; [exact Ht | lia]|].
  assert (Hr : replace line (sep :: name) current_directory
               = str_join current_directory
                   (split_scan (length line) line (sep :: name)))
    by now apply replace_scan_join.
  split; [exact Hr|]. unfold sanitize_line. rewrite Hr.
  split; [reflexivity|]. now apply normpath_no_new_occurrence.
Qed.

Lemma sanitize_line_substitution_witness :
  exists pieces,
    str_split ("/tmp/topic/notes.tex:12:34" ++ [LF]) SERVER_TARGET_DIR
    = Some pieces
    /\ length pieces
       = S (count ("/tmp/topic/notes.tex:12:34" ++ [LF]) SERVER_TARGET_DIR)
    /\ str_join SERVER_TARGET_DIR pieces = "/tmp/topic/notes.tex:12:34" ++ [LF]
    /\ Forall (fun piece => contains SERVER_TARGET_DIR piece = false) pieces
    /\ replace ("/tmp/topic/notes.tex:12:34" ++ [LF]) SERVER_TARGET_DIR
         "/home/u/proj"
       = str_join "/home/u/proj" pieces
    /\ sanitize_line "/home/u/proj" SERVER_TARGET_DIR
         ("/tmp/topic/notes.tex:12:34" ++ [LF])
       = os_path.normpath (str_join "/home/u/proj" pieces)
    /\ (contains SERVER_TARGET_DIR (str_join "/home/u/proj" pieces) = false ->
        contains SERVER_TARGET_DIR
          (sanitize_line "/home/u/proj" SERVER_TARGET_DIR
             ("/tmp/topic/notes.tex:12:34" ++ [LF])) = false).
Proof.
  apply (@sanitize_line_substitution "/home/u/proj" "tmp"
           ("/tmp/topic/notes.tex:12:34" ++ [LF])).
  - discriminate.
  - vm_compute. intuition discriminate.
Defined.

Example scenario_line_repaired :
  sanitize_text ("/tmp/topic/notes.tex:12:34" ++ [LF]) "/home/u/proj"
    SERVER_TARGET_DIR
  = "/home/u/proj/topic/notes.tex:12:34" ++ [LF]
  /\ occurrences_left ("/tmp/topic/notes.tex:12:34" ++ [LF]) "/home/u/proj"
       SERVER_TARGET_DIR = [0].
Proof. vm_compute. split; reflexivity. Qed.

(** C1 as stated fails when the local directory lies below the remote
    root: the one occurrence is replaced and one occurrence remains. *)
Lemma sanitize_line_substitution_counterexample :
  let text := "/tmp/topic/notes.tex:12:34" ++ [LF] in
  map (fun line => count line SERVER_TARGET_DIR) (read_lines text) = [1]
  /\ sanitize_text text "/tmp/work" SERVER_TARGET_DIR
     = "/tmp/work/topic/notes.tex:12:34" ++ [LF]
  /\ occurrences_left text "/tmp/work" SERVER_TARGET_DIR = [1]
  /\ ~ Forall (eq 0) (occurrences_left text "/tmp/work" SERVER_TARGET_DIR).
Proof.
  vm_compute. repeat split. intros H.
  apply Forall_cons_iff in H as [H _]. discriminate.
Qed.

(** * The path decomposition *)

Lemma rfind_spec (s : str) (c : ascii) :
  (rfind s c = (-1)%Z /\ ~ In c s)
  \/ (exists a b, s = a ++ c :: b /\ ~ In c b
                  /\ rfind s c = Z.of_nat (length a)).
Proof.
  induction s as [|x s IH].
  - left. split; [reflexivity | intros []].
  - cbn [rfind]. destruct IH as [(Hr & Hn)|(a & b & -> & Hb & Hr)].
    + rewrite Hr. cbn [Z.leb Z.compare]. destruct (Ascii.eqb x c) eqn:E.
      * apply Ascii.eqb_eq in E. subst x. right. now exists [], s.
      * left. split; [reflexivity|]. intros [->|H]; [|auto].
        now rewrite Ascii.eqb_refl in E.
    + rewrite Hr. destruct (0 <=? Z.of_nat (length a))%Z eqn:E;
        [|apply Z.leb_gt in E; lia].
      right. exists (x :: a), b. repeat split; [exact Hb|].
      cbn [length]. lia.
Qed.

Lemma lstrip_other (s : str) (y c : ascii) : y <> c -> lstrip (y :: s) c = y :: s.
Proof. intros H. cbn [lstrip]. apply Ascii.eqb_neq in H. now rewrite H. Qed.

Lemma rstrip_snoc_sep (s : str) (c : ascii) : rstrip (s ++ [c]) c = rstrip s c.
Proof.
  unfold rstrip. rewrite rev_app_distr. cbn [rev app lstrip].
  now rewrite Ascii.eqb_refl.
Qed.

Lemma rstrip_snoc_other (s : str) (y c : ascii) :
  y <> c -> rstrip (s ++ [y]) c = s ++ [y].
Proof.
  intros H. unfold rstrip. rewrite rev_app_distr. cbn [rev app].
  rewrite lstrip_other by exact H.
  change (y :: rev s) with ([y] ++ rev s). rewrite rev_app_distr.
  now rewrite rev_involutive.
Qed.

Lemma endswith_snoc (s : str) (y c : ascii) :
  endswith (s ++ [y]) [c] = Ascii.eqb c y.
Proof.
  unfold endswith. rewrite rev_app_distr. cbn [rev app startswith].
  rewrite startswith_nil. apply andb_true_r.
Qed.

Lemma startswith_sep_no_sep (s : str) : ~ In sep s -> startswith s [sep] = false.
Proof.
  destruct s as [|x s]; [reflexivity|]. intros H. cbn [startswith].
  assert (Hx : x <> sep) by (intros ->; apply H; now left).
  apply Ascii.eqb_neq in Hx. now rewrite Ascii.eqb_sym, Hx.
Qed.

Lemma no_double_sep_prefix (a b : str) :
  no_double_sep (a ++ b) -> no_double_sep a.
Proof. intros H. now apply contains_app_false in H. Qed.

Lemma no_double_sep_snoc (a b : str) :
  no_double_sep ((a ++ [sep]) ++ sep :: b) -> False.
Proof.
  unfold no_double_sep. intros H.
  assert (contains [sep; sep] ((a ++ [sep]) ++ sep :: b) = true);
    [|congruence].
  apply contains_iff. exists a, b. now rewrite <- app_assoc.
Qed.

(** What [os.path.split] returns, by the place of the last separator. *)
Lemma split_no_sep (p : str) : ~ In sep p -> os_path.split p = ([], p).
Proof.
  intros H. unfold os_path.split.
  destruct (rfind_spec p sep) as [(Hr & _)|(a & b & -> & _)].
  - rewrite Hr. reflexivity.
  - exfalso. apply H, in_or_app. right. now left.
Qed.

Lemma split_at_last_sep (a b : str) :
  ~ In sep b ->
  os_path.split (a ++ sep :: b)
  = (if negb (str_eqb (a ++ [sep]) (repeat sep (length (a ++ [sep]))))
     then rstrip a sep else a ++ [sep], b).
Proof.
  intros Hb. unfold os_path.split.
  destruct (rfind_spec (a ++ sep :: b) sep) as [(_ & Hn)|(a' & b' & E & Hb' & Hr)].
  { exfalso. apply Hn, in_or_app. right. now left. }
  assert (Ha : a' = a).
  { clear Hr. revert a' E. induction a as [|x a IH]; intros a' E.
    - destruct a' as [|y a']; [reflexivity|]. cbn [app] in E.
      injection E as <- E. exfalso. apply Hb. rewrite E. apply in_or_app.
      right. now left.
    - destruct a' as [|y a'].
      + cbn [app] in E. injection E as -> E. exfalso. apply Hb'. rewrite <- E.
        apply in_or_app. right. now left.
      + cbn [app] in E. injection E as <- E. f_equal. now apply IH. }
  subst a'. rewrite Hr.
  replace (Z.to_nat (Z.of_nat (length a) + 1)) with (length (a ++ [sep]))
    by (rewrite length_app; cbn [length]; lia).
  replace (a ++ sep :: b) with ((a ++ [sep]) ++ b) by now rewrite <- app_assoc.
  rewrite firstn_app, Nat.sub_diag, firstn_all. cbn [firstn].
  rewrite app_nil_r, skipn_app, Nat.sub_diag, skipn_all. cbn [skipn app].
  assert (Hnil : is_nil (a ++ [sep]) = false) by (destruct a; reflexivity).
  rewrite Hnil. cbn [negb andb]. now rewrite rstrip_snoc_sep.
Qed.

Lemma split_tail_no_sep (p : str) : ~ In sep (snd (os_path.split p)).
Proof.
  destruct (rfind_spec p sep) as [(_ & Hn)|(a & b & -> & Hb & _)].
  - now rewrite split_no_sep.
  - now rewrite split_at_last_sep.
Qed.

(** Rejoining the two halves of a path without doubled separators. *)
Lemma join_split (p : str) :
  no_double_sep p ->
  os_path.join (fst (os_path.split p)) (snd (os_path.split p)) = p.
Proof.
  intros Hd. destruct (rfind_spec p sep) as [(_ & Hn)|(a & b & -> & Hb & _)].
  - rewrite split_no_sep by exact Hn. cbn [fst snd]. unfold os_path.join.
    now rewrite startswith_sep_no_sep.
  - rewrite split_at_last_sep by exact Hb. cbn [fst snd]. unfold os_path.join.
    rewrite startswith_sep_no_sep by exact Hb.
    destruct (str_eqb (a ++ [sep]) (repeat sep (length (a ++ [sep])))) eqn:E;
      cbn [negb].
    + rewrite endswith_snoc, Ascii.eqb_refl, orb_true_r.
      now rewrite <- app_assoc.
    + destruct a as [|x a] using rev_ind; [discriminate|]. clear IHa.
      destruct (ascii_dec x sep) as [->|Hx].
      { exfalso. now apply no_double_sep_snoc in Hd. }
      rewrite rstrip_snoc_other by exact Hx.
      rewrite endswith_snoc. apply Ascii.eqb_neq in Hx.
      rewrite Ascii.eqb_sym, Hx.
      assert (Hnil : is_nil (a ++ [x]) = false) by (destruct a; reflexivity).
      rewrite Hnil. reflexivity.
Qed.

Lemma split_head_no_double_sep (p : str) :
  no_double_sep p -> no_double_sep (fst (os_path.split p)).
Proof.
  intros Hd. destruct (rfind_spec p sep) as [(_ & Hn)|(a & b & -> & Hb & _)].
  - now rewrite split_no_sep.
  - rewrite split_at_last_sep by exact Hb. cbn [fst].
    destruct (negb (str_eqb (a ++ [sep]) (repeat sep (length (a ++ [sep]))))).
    + destruct a as [|x a] using rev_ind; [reflexivity|]. clear IHa.
      destruct (ascii_dec x sep) as [->|Hx].
      { exfalso. now apply no_double_sep_snoc in Hd. }
      rewrite rstrip_snoc_other by exact Hx.
      now apply no_double_sep_prefix in Hd.
    + apply no_double_sep_prefix with b. now rewrite <- app_assoc.
Qed.

Lemma splitext_app (p : str) :
  fst (os_path.splitext p) ++ snd (os_path.splitext p) = p.
Proof.
  unfold os_path.splitext.
  match goal with |- context [if ?b then _ else _] => destruct b end;
    cbn [fst snd]; [apply firstn_skipn | apply app_nil_r].
Qed.

Lemma Filepath_info_fields (path : str) :
  let fp := Filepath_info_init path in
  folder fp = fst (os_path.split path)
  /\ filename fp = snd (os_path.split path)
  /\ stem fp = fst (os_path.splitext (filename fp))
  /\ extension fp = snd (os_path.splitext (filename fp))
  /\ bottom_folders fp = fst (os_path.split (folder fp))
  /\ top_folder fp = snd (os_path.split (folder fp)).
Proof.
  cbn zeta. unfold Filepath_info_init.
  destruct (os_path.split path) as [fo fi].
  destruct (os_path.splitext fi) as [st ex] eqn:E1.
  destruct (os_path.split fo) as [bot top] eqn:E2.
  cbn [folder filename stem extension bottom_folders top_folder].
  rewrite E1, E2. now repeat split.
Qed.

(** C2, as the code has it.  For a path in which no separator follows a
    separator, the folder is the join of bottom folder and top folder, the
    file name is stem plus extension, and joining folder and file name
    gives the path back. *)
Theorem Filepath_info_decomposition (path : str) :
  no_double_sep path ->
  let fp := Filepath_info_init path in
  folder fp = os_path.join (bottom_folders fp) (top_folder fp)
  /\ filename fp = stem fp ++ extension fp
  /\ os_path.join (folder fp) (filename fp) = path.
Proof.
  intros Hd. cbn zeta.
  destruct (Filepath_info_fields path) as (H1 & H2 & H3 & H4 & H5 & H6).
  rewrite H5, H6, H3, H4. split; [|split].
  - symmetry. apply join_split. rewrite H1.
    now apply split_head_no_double_sep.
  - symmetry. apply splitext_app.
  - rewrite H1, H2. now apply join_split.
Qed.

Lemma Filepath_info_decomposition_witness :
  let fp := Filepath_info_init "/home/u/proj/topic/notes.tex" in
  folder fp = os_path.join (bottom_folders fp) (top_folder fp)
  /\ filename fp = stem fp ++ extension fp
  /\ os_path.join (folder fp) (filename fp) = "/home/u/proj/topic/notes.tex".
Proof.
  apply (@Filepath_info_decomposition "/home/u/proj/topic/notes.tex").
  vm_compute. reflexivity.
Defined.

Example scenario_decomposition :
  Filepath_info_init "/home/u/proj/topic/notes.tex"
  = {| folder := "/home/u/proj/topic"; filename := "notes.tex";
       stem := "notes"; extension := ".tex";
       bottom_folders := "/home/u/proj"; top_folder := "topic" |}.
Proof. vm_compute. reflexivity. Qed.

(** C2 as stated fails for an absolute path with doubled separators:
    neither the folder nor the path is rebuilt. *)
Lemma Filepath_info_decomposition_counterexample :
  let path : str := "/home/u//topic//notes.tex" in
  let fp := Filepath_info_init path in
  startswith path [sep] = true
  /\ folder fp = "/home/u//topic"
  /\ os_path.join (bottom_folders fp) (top_folder fp) = "/home/u/topic"
  /\ folder fp <> os_path.join (bottom_folders fp) (top_folder fp)
  /\ os_path.join (folder fp) (filename fp) = "/home/u//topic/notes.tex"
  /\ os_path.join (folder fp) (filename fp) <> path.
Proof. vm_compute. repeat split; discriminate. Qed.

(** * The driver *)

Section DriverFacts.

Variable env : Type.
Variable shell : str -> env -> FS -> Z * (env * FS).

Let world := world env.
Let M := M env.

Lemma bind_inr {A B : Type} (m : M A) (k : A -> M B) (w w' : world) (a : A) :
  m w = (inr a, w') -> bind m k w = k a w'.
Proof. unfold bind. now intros ->. Qed.

Lemma bind_inl {A B : Type} (m : M A) (k : A -> M B) (w w' : world) (e : exn) :
  m w = (inl e, w') -> bind m k w = (inl e, w').
Proof. unfold bind. now intros ->. Qed.

Lemma print_run (line : str) (w : world) :
  print line w = (inr tt, logged (Print line) w).
Proof. reflexivity. Qed.

Lemma sp_run_run (command : str) (w : world) :
  sp_run shell command w
  = (inr (status shell command (outside w)), ran shell command w).
Proof.
  unfold sp_run, bind, log, ran, status, after, outside.
  cbn [w_env w_fs w_cwd w_trace fst snd].
  destruct (shell command (w_env w) (w_fs w)) as [rc [e fs]]. reflexivity.
Qed.

Lemma outside_logged (e : event) (w : world) : outside (logged e w) = outside w.
Proof. reflexivity. Qed.

Lemma outside_ran (command : str) (w : world) :
  outside (ran shell command w) = after shell command (outside w).
Proof.
  unfold outside, ran. cbn [w_env w_fs]. now destruct (after shell command _).
Qed.

Lemma commands_logged (e : event) (w : world) :
  commands (w_trace (logged e w))
  = commands (w_trace w) ++ match e with Run c => [c] | _ => [] end.
Proof.
  unfold commands, logged. cbn [w_trace]. rewrite flat_map_app. cbn [flat_map].
  now rewrite app_nil_r.
Qed.

Lemma commands_ran (command : str) (w : world) :
  commands (w_trace (ran shell command w)) = commands (w_trace w) ++ [command].
Proof.
  unfold commands, ran. cbn [w_trace]. rewrite flat_map_app. reflexivity.
Qed.

Lemma gz_opens_logged (e : event) (w : world) :
  gz_opens (w_trace (logged e w))
  = gz_opens (w_trace w)
    ++ match e with GzOpenRead f | GzOpenWrite f => [f] | _ => [] end.
Proof.
  unfold gz_opens, logged. cbn [w_trace]. rewrite flat_map_app.
  cbn [flat_map]. now rewrite app_nil_r.
Qed.

Lemma gz_opens_ran (command : str) (w : world) :
  gz_opens (w_trace (ran shell command w)) = gz_opens (w_trace w).
Proof.
  unfold gz_opens, ran. cbn [w_trace]. rewrite flat_map_app. cbn [flat_map].
  now rewrite app_nil_r.
Qed.

Lemma sync_forward_run (loc remote server : str) (w : world) :
  sync_forward shell loc remote server w
  = let w' := ran shell (sync_forward_command loc remote server) w in
    let rc := status shell (sync_forward_command loc remote server) (outside w) in
    if (rc =? 0)%Z then (inr rc, w')
    else (inl (AssertionError
                 "Forward rsync finished with nonzero exit code."), w').
Proof.
  unfold sync_forward. erewrite bind_inr by apply sp_run_run. cbn zeta.
  unfold py_assert.
  destruct (status shell (sync_forward_command loc remote server) (outside w)
            =? 0)%Z; reflexivity.
Qed.

Lemma sync_back_run (remote loc server : str) (w : world) :
  sync_back shell remote loc server w
  = let w' := ran shell (sync_back_command remote loc server) w in
    let rc := status shell (sync_back_command remote loc server) (outside w) in
    if (rc =? 0)%Z then (inr rc, w')
    else (inl (AssertionError "Rsync back finished with nonzero exit code."),
          w').
Proof.
  unfold sync_back. erewrite bind_inr by apply sp_run_run. cbn zeta.
  unfold py_assert.
  destruct (status shell (sync_back_command remote loc server) (outside w)
            =? 0)%Z; reflexivity.
Qed.

Lemma trace_written (gzfile text : str) (w : world) :
  w_trace (written gzfile text w) = w_trace w.
Proof. reflexivity. Qed.

Ltac run_step :=
  first
    [ erewrite bind_inr by apply print_run
    | erewrite bind_inr by apply sp_run_run ];
  cbn beta.

Ltac outside_norm :=
  repeat first [rewrite outside_logged | rewrite outside_ran].

Ltac trace_norm :=
  repeat first
    [ rewrite trace_written
    | rewrite commands_logged | rewrite commands_ran
    | rewrite gz_opens_logged | rewrite gz_opens_ran ];
  rewrite ?app_nil_r, <- ?app_assoc;
  cbn [app].

(** C8.  When the forward rsync ends with a status that is not zero, the
    run ends there with the assertion error: the forward command is the
    only command issued (no build, no back-transfer), no mapping file is
    opened, and the process ends with status 1. *)
Theorem forward_failure_is_fatal (filepath server : str) (w : world) :
  let fp := Filepath_info_init filepath in
  status shell (forward_command fp server) (outside w) <> 0%Z ->
  let r := fst (main shell (Namespace filepath (Some server)) w) in
  let w' := snd (main shell (Namespace filepath (Some server)) w) in
  r = inl (AssertionError "Forward rsync finished with nonzero exit code.")
  /\ exit_status r = 1%Z
  /\ commands (w_trace w') = commands (w_trace w) ++ [forward_command fp server]
  /\ gz_opens (w_trace w') = gz_opens (w_trace w)
  /\ outside w' = after shell (forward_command fp server) (outside w).
Proof.
  cbn zeta. unfold forward_command. intros Hfwd. apply Z.eqb_neq in Hfwd.
  unfold main. run_step.
  erewrite bind_inl;
    [|rewrite sync_forward_run; cbn zeta; outside_norm; rewrite Hfwd;
      reflexivity].
  cbn [fst snd exit_status]. repeat split; trace_norm; outside_norm;
    reflexivity.
Qed.

Lemma sanitize_synctex_run (gzfile cur tgt : str) (w : world) :
  sanitize_synctex gzfile cur tgt w
  = match w_fs w (resolve (w_cwd w) gzfile) with
    | None =>
        (inl (FileNotFoundError gzfile), logged (GzOpenRead gzfile) w)
    | Some NotGzipText =>
        (inl (BadGzipFile gzfile), logged (GzOpenRead gzfile) w)
    | Some (Unreadable why) =>
        (inl (read_exn why gzfile), logged (GzOpenRead gzfile) w)
    | Some (GzipText text) =>
        (inr tt,
         written gzfile (sanitize_text text cur tgt)
           (logged (GzOpenWrite gzfile) (logged (GzOpenRead gzfile) w)))
    | Some (ReadOnlyGzipText text) =>
        (inl (PermissionError gzfile),
         logged (GzOpenWrite gzfile) (logged (GzOpenRead gzfile) w))
    end.
Proof.
  unfold sanitize_synctex, gz_read, gz_write, bind, log, logged, written.
  cbn [w_env w_fs w_cwd w_trace].
  destruct (w_fs w (resolve (w_cwd w) gzfile)) as [[text|text| |why]|] eqn:E;
    try reflexivity; cbn [w_env w_fs w_cwd w_trace]; now rewrite E.
Qed.

Ltac run_step_in E :=
  first
    [ erewrite bind_inr in E by apply print_run
    | erewrite bind_inr in E by apply sp_run_run ];
  cbn beta in E.

Ltac forward_ok_in E H :=
  erewrite bind_inr in E;
    [|rewrite sync_forward_run; cbn zeta; outside_norm; rewrite H;
      reflexivity];
  cbn beta in E.

(** The run up to the end of the remote build, when the forward transfer
    has succeeded. *)
Ltac run_to_build E Hfwd :=
  unfold main in E; run_step_in E; forward_ok_in E Hfwd;
  do 11 run_step_in E;
  repeat first [rewrite outside_logged in E | rewrite outside_ran in E].

(** C3.  After a successful forward transfer the exit status of the remote
    build decides the rest.  Not zero: the run ends with [sys.exit(1)],
    the process status is 1, the build is the last command issued (no
    back-transfer) and no mapping file is opened.  Zero: the back-transfer
    is the next command issued, and once it has succeeded the repair opens
    the mapping file. *)
Theorem build_status_decides (filepath server : str) (w : world) :
  let fp := Filepath_info_init filepath in
  let o1 := after shell (forward_command fp server) (outside w) in
  let o2 := after shell (ssh_command fp server) o1 in
  let r := fst (main shell (Namespace filepath (Some server)) w) in
  let w' := snd (main shell (Namespace filepath (Some server)) w) in
  status shell (forward_command fp server) (outside w) = 0%Z ->
  (status shell (ssh_command fp server) o1 <> 0%Z ->
     r = inl (SystemExit 1)
     /\ exit_status r = 1%Z
     /\ commands (w_trace w')
        = commands (w_trace w)
            ++ [forward_command fp server; ssh_command fp server]
     /\ gz_opens (w_trace w') = gz_opens (w_trace w)
     /\ outside w' = o2)
  /\ (status shell (ssh_command fp server) o1 = 0%Z ->
      commands (w_trace w')
      = commands (w_trace w)
          ++ [forward_command fp server; ssh_command fp server;
              back_command fp server]
      /\ (status shell (back_command fp server) o2 = 0%Z ->
          exists rest,
            gz_opens (w_trace w')
            = gz_opens (w_trace w) ++ synctex_gz_file fp :: rest)).
Proof.
  cbn zeta. unfold forward_command, back_command.
  intros Hfwd. apply Z.eqb_eq in Hfwd.
  remember (main shell (Namespace filepath (Some server)) w) as res eqn:E.
  split.
  - intros Hrc. apply Z.eqb_neq in Hrc. run_to_build E Hfwd.
    rewrite Hrc in E. cbn [negb] in E.
    erewrite bind_inl in E;
      [|erewrite bind_inr by apply print_run; reflexivity].
    subst res. cbn [fst snd exit_status].
    repeat split; trace_norm; outside_norm; reflexivity.
  - intros Hrc. apply Z.eqb_eq in Hrc. run_to_build E Hfwd.
    rewrite Hrc in E. cbn [negb] in E. run_step_in E.
    unfold bind at 1 in E. rewrite sync_back_run in E. cbn zeta in E.
    repeat first [rewrite outside_logged in E | rewrite outside_ran in E].
    match type of E with
    | context [(?x =? 0)%Z] => destruct (x =? 0)%Z eqn:Hback
    end; cbn beta iota in E.
    + run_step_in E. unfold bind at 1 in E.
      rewrite sanitize_synctex_run in E.
      match type of E with
      | context [match ?x with None => _ | _ => _ end] =>
          destruct x as [[text|text| |why]|]
      end; cbn beta iota in E; rewrite ?print_run in E; subst res;
        cbn [fst snd];
        (split; [trace_norm; reflexivity
                |intros _; eexists; trace_norm; reflexivity]).
    + subst res. cbn [fst snd]. split.
      * trace_norm. reflexivity.
      * intros H. apply Z.eqb_eq in H. congruence.
Qed.

Lemma w_fs_outside (w : world) : w_fs w = snd (outside w).
Proof. reflexivity. Qed.

Lemma cwd_logged (e : event) (w : world) : w_cwd (logged e w) = w_cwd w.
Proof. reflexivity. Qed.

Lemma cwd_ran (command : str) (w : world) : w_cwd (ran shell command w) = w_cwd w.
Proof. reflexivity. Qed.

Lemma stem_no_sep (filepath : str) :
  ~ In sep (stem (Filepath_info_init filepath)).
Proof.
  destruct (Filepath_info_fields filepath) as (_ & H2 & H3 & _).
  rewrite H3. intros H.
  apply (@split_tail_no_sep filepath). rewrite <- H2.
  rewrite <- (splitext_app (filename (Filepath_info_init filepath))).
  apply in_or_app. now left.
Qed.

Lemma synctex_gz_file_no_sep (filepath : str) :
  ~ In sep (synctex_gz_file (Filepath_info_init filepath)).
Proof.
  unfold synctex_gz_file. intros H. apply in_app_or in H as [H|H].
  - now apply stem_no_sep in H.
  - vm_compute in H. intuition discriminate.
Qed.

Lemma join_relative (d name : str) :
  ~ In sep name -> os_path.join d name = with_sep d ++ name.
Proof.
  intros H. unfold os_path.join, with_sep.
  rewrite startswith_sep_no_sep by exact H.
  destruct (is_nil d || endswith d [sep]); [reflexivity|].
  now rewrite <- app_assoc.
Qed.

(** C9.  In a run that reaches the repair, the path handed to
    [sanitize_synctex] is the stem plus [.synctex.gz]: a bare name, without
    any separator, which the system resolves against the current working
    directory.  The file at that place decides the outcome, and it is the
    place of the synced-back mapping file exactly when the working
    directory is the folder the back-transfer wrote (the same string up to
    a final separator). *)
Theorem repair_path_is_relative (filepath server : str) (w : world) :
  let fp := Filepath_info_init filepath in
  let gzfile := synctex_gz_file fp in
  let o1 := after shell (forward_command fp server) (outside w) in
  let o2 := after shell (ssh_command fp server) o1 in
  let o3 := after shell (back_command fp server) o2 in
  let r := fst (main shell (Namespace filepath (Some server)) w) in
  let w' := snd (main shell (Namespace filepath (Some server)) w) in
  status shell (forward_command fp server) (outside w) = 0%Z ->
  status shell (ssh_command fp server) o1 = 0%Z ->
  status shell (back_command fp server) o2 = 0%Z ->
  gzfile = stem fp ++ ".synctex.gz"
  /\ ~ In sep gzfile
  /\ resolve (w_cwd w) gzfile = with_sep (w_cwd w) ++ gzfile
  /\ (exists rest,
        gz_opens (w_trace w') = gz_opens (w_trace w) ++ gzfile :: rest)
  /\ match snd o3 (resolve (w_cwd w) gzfile) with
     | Some (GzipText text) =>
         r = inr tt
         /\ w_fs w'
            = fs_write (snd o3) (resolve (w_cwd w) gzfile)
                (GzipText (sanitize_text text (bottom_folders fp)
                             SERVER_TARGET_DIR))
     | Some (ReadOnlyGzipText text) =>
         r = inl (PermissionError gzfile) /\ w_fs w' = snd o3
     | Some NotGzipText => r = inl (BadGzipFile gzfile) /\ w_fs w' = snd o3
     | Some (Unreadable why) =>
         r = inl (read_exn why gzfile) /\ w_fs w' = snd o3
     | None => r = inl (FileNotFoundError gzfile) /\ w_fs w' = snd o3
     end
  /\ (resolve (w_cwd w) gzfile = synced_back_mapping_file fp
      <-> with_sep (w_cwd w)
          = with_sep (os_path.join (bottom_folders fp) (top_folder fp))).
Proof.
  cbn zeta. unfold forward_command, back_command.
  intros Hfwd Hrc Hback.
  apply Z.eqb_eq in Hfwd. apply Z.eqb_eq in Hrc. apply Z.eqb_eq in Hback.
  pose proof (synctex_gz_file_no_sep filepath) as Hrel.
  split; [reflexivity|]. split; [exact Hrel|].
  split; [now apply join_relative|].
  assert (Hiff :
    resolve (w_cwd w) (synctex_gz_file (Filepath_info_init filepath))
    = synced_back_mapping_file (Filepath_info_init filepath)
    <-> with_sep (w_cwd w)
        = with_sep (os_path.join
                      (bottom_folders (Filepath_info_init filepath))
                      (top_folder (Filepath_info_init filepath)))).
  { unfold synced_back_mapping_file.
    fold (synctex_gz_file (Filepath_info_init filepath)).
    unfold resolve. rewrite !join_relative by exact Hrel.
    split; [apply app_inv_tail | now intros ->]. }
  remember (main shell (Namespace filepath (Some server)) w) as res eqn:E.
  run_to_build E Hfwd. rewrite Hrc in E. cbn [negb] in E. run_step_in E.
  unfold bind at 1 in E. rewrite sync_back_run in E. cbn zeta in E.
  repeat first [rewrite outside_logged in E | rewrite outside_ran in E].
  rewrite Hback in E. cbn beta iota in E. run_step_in E.
  unfold bind at 1 in E. rewrite sanitize_synctex_run in E.
  rewrite w_fs_outside in E.
  repeat first [rewrite outside_logged in E | rewrite outside_ran in E
               | rewrite cwd_logged in E | rewrite cwd_ran in E].
  match type of E with
  | context [match ?x with None => _ | _ => _ end] =>
      destruct x as [[text|text| |why]|] eqn:Efile
  end; cbn beta iota in E; rewrite ?print_run in E; subst res;
    cbn [fst snd];
    (split; [eexists; trace_norm; reflexivity|]);
    (split; [|exact Hiff]);
    (split; [reflexivity|]); rewrite w_fs_outside; outside_norm;
    reflexivity.
Qed.

(** ** Every way a run can end *)

(** The outcome of a run with a server name, by the first step that fails:
    the forward transfer, the build, the back-transfer, the reading of the
    mapping file, or none. *)
Lemma main_outcome (filepath server : str) (w : world) :
  let fp := Filepath_info_init filepath in
  let gzfile := synctex_gz_file fp in
  let fwd := forward_command fp server in
  let ssh := ssh_command fp server in
  let back := back_command fp server in
  let o1 := after shell fwd (outside w) in
  let o2 := after shell ssh o1 in
  let o3 := after shell back o2 in
  let r := fst (main shell (Namespace filepath (Some server)) w) in
  let w' := snd (main shell (Namespace filepath (Some server)) w) in
  if negb (status shell fwd (outside w) =? 0)%Z then
    r = inl (AssertionError "Forward rsync finished with nonzero exit code.")
    /\ commands (w_trace w') = commands (w_trace w) ++ [fwd]
    /\ gz_opens (w_trace w') = gz_opens (w_trace w)
    /\ outside w' = o1
  else if negb (status shell ssh o1 =? 0)%Z then
    r = inl (SystemExit 1)
    /\ commands (w_trace w') = commands (w_trace w) ++ [fwd; ssh]
    /\ gz_opens (w_trace w') = gz_opens (w_trace w)
    /\ outside w' = o2
  else if negb (status shell back o2 =? 0)%Z then
    r = inl (AssertionError "Rsync back finished with nonzero exit code.")
    /\ commands (w_trace w') = commands (w_trace w) ++ [fwd; ssh; back]
    /\ gz_opens (w_trace w') = gz_opens (w_trace w)
    /\ outside w' = o3
  else
    commands (w_trace w') = commands (w_trace w) ++ [fwd; ssh; back]
    /\ w_env w' = fst o3
    /\ match snd o3 (resolve (w_cwd w) gzfile) with
       | None =>
           r = inl (FileNotFoundError gzfile)
           /\ gz_opens (w_trace w') = gz_opens (w_trace w) ++ [gzfile]
           /\ w_fs w' = snd o3
       | Some NotGzipText =>
           r = inl (BadGzipFile gzfile)
           /\ gz_opens (w_trace w') = gz_opens (w_trace w) ++ [gzfile]
           /\ w_fs w' = snd o3
       | Some (Unreadable why) =>
           r = inl (read_exn why gzfile)
           /\ gz_opens (w_trace w') = gz_opens (w_trace w) ++ [gzfile]
           /\ w_fs w' = snd o3
       | Some (ReadOnlyGzipText text) =>
           r = inl (PermissionError gzfile)
           /\ gz_opens (w_trace w') = gz_opens (w_trace w) ++ [gzfile; gzfile]
           /\ w_fs w' = snd o3
       | Some (GzipText text) =>
           r = inr tt
           /\ gz_opens (w_trace w') = gz_opens (w_trace w) ++ [gzfile; gzfile]
           /\ w_fs w'
              = fs_write (snd o3) (resolve (w_cwd w) gzfile)
                  (GzipText (sanitize_text text (bottom_folders fp)
                               SERVER_TARGET_DIR))
       end.
Proof.
  cbn zeta. unfold forward_command, back_command.
  remember (main shell (Namespace filepath (Some server)) w) as res eqn:E.
  destruct (status shell _ (outside w) =? 0)%Z eqn:Hfwd; cbn [negb].
  2: { unfold main in E. run_step_in E.
       erewrite bind_inl in E;
         [|rewrite sync_forward_run; cbn zeta; outside_norm; rewrite Hfwd;
           reflexivity].
       subst res. cbn [fst snd].
       repeat split; trace_norm; outside_norm; reflexivity. }
  run_to_build E Hfwd.
  match type of E with
  | context [negb (?x =? 0)%Z] => destruct (x =? 0)%Z eqn:Hrc
  end; cbn [negb] in E |- *.
  2: { erewrite bind_inl in E;
         [|erewrite bind_inr by apply print_run; reflexivity].
       subst res. cbn [fst snd].
       repeat split; trace_norm; outside_norm; reflexivity. }
  run_step_in E.
  unfold bind at 1 in E. rewrite sync_back_run in E. cbn zeta in E.
  repeat first [rewrite outside_logged in E | rewrite outside_ran in E].
  match type of E with
  | context [if (?x =? 0)%Z then _ else _] => destruct (x =? 0)%Z eqn:Hback
  end; cbn beta iota in E; cbn [negb].
  2: { subst res. cbn [fst snd].
       repeat split; trace_norm; outside_norm; reflexivity. }
  run_step_in E. unfold bind at 1 in E. rewrite sanitize_synctex_run in E.
  rewrite w_fs_outside in E.
  repeat first [rewrite outside_logged in E | rewrite outside_ran in E
               | rewrite cwd_logged in E | rewrite cwd_ran in E].
  match type of E with
  | context [match ?x with None => _ | _ => _ end] =>
      destruct x as [[text|text| |why]|] eqn:Efile
  end; cbn beta iota in E; rewrite ?print_run in E; subst res;
    cbn [fst snd];
    (split; [trace_norm; reflexivity|]);
    (split; [reflexivity|]);
    (split; [reflexivity|]);
    (split; [trace_norm; reflexivity|]);
    reflexivity.
Qed.

Ltac destruct_file H :=
  match type of H with
  | context [match ?x with None => _ | _ => _ end] =>
      let text := fresh "text" in
      let why := fresh "why" in
      let Efile := fresh "Efile" in
      destruct x as [[text|text| |why]|] eqn:Efile
  end.

(** X1.  A back-transfer that ends with a status that is not zero is fatal:
    the run ends with the assertion error of [sync_back] and status 1, the
    mapping file is not opened, and the local files stay as the failed
    transfer left them. *)
Theorem back_failure_is_fatal (filepath server : str) (w : world) :
  let fp := Filepath_info_init filepath in
  let o1 := after shell (forward_command fp server) (outside w) in
  let o2 := after shell (ssh_command fp server) o1 in
  let r := fst (main shell (Namespace filepath (Some server)) w) in
  let w' := snd (main shell (Namespace filepath (Some server)) w) in
  status shell (forward_command fp server) (outside w) = 0%Z ->
  status shell (ssh_command fp server) o1 = 0%Z ->
  status shell (back_command fp server) o2 <> 0%Z ->
  r = inl (AssertionError "Rsync back finished with nonzero exit code.")
  /\ exit_status r = 1%Z
  /\ commands (w_trace w')
     = commands (w_trace w)
         ++ [forward_command fp server; ssh_command fp server;
             back_command fp server]
  /\ gz_opens (w_trace w') = gz_opens (w_trace w)
  /\ outside w' = after shell (back_command fp server) o2.
Proof.
  cbn zeta. intros H1 H2 H3.
  apply Z.eqb_eq in H1, H2. apply Z.eqb_neq in H3.
  pose proof (main_outcome filepath server w) as H.
  cbn zeta in H. rewrite H1, H2, H3 in H. cbn [negb] in H.
  destruct H as (Hr & Hc & Hg & Ho). rewrite Hr. now repeat split.
Qed.

Lemma exit_status_read_exn (why : read_error) (gzfile : str) :
  exit_status (inl (read_exn why gzfile)) = 1%Z.
Proof. now destruct why. Qed.

Lemma app_cons_neq {A : Type} (l t : list A) (x : A) : l ++ x :: t <> l.
Proof.
  intros E. apply (f_equal (@length A)) in E. rewrite length_app in E.
  cbn [length] in E. lia.
Qed.

(** X2.  When the three commands have succeeded but the run cannot rewrite
    the mapping file, the process ends with status 1 and the local files
    are as the back-transfer left them.  The exception is that of the
    reading, [FileNotFoundError] for a missing file, [BadGzipFile] for a
    file that is no gzip stream, [EOFError] for a truncated stream,
    [UnicodeDecodeError] for bytes that are no text, and so on, after the
    file was opened once; or it is the [PermissionError] of the opening for
    writing, for a file that was read but may not be written. *)
Theorem unreadable_mapping_file (filepath server : str) (w : world) :
  let fp := Filepath_info_init filepath in
  let gzfile := synctex_gz_file fp in
  let o1 := after shell (forward_command fp server) (outside w) in
  let o2 := after shell (ssh_command fp server) o1 in
  let o3 := after shell (back_command fp server) o2 in
  let r := fst (main shell (Namespace filepath (Some server)) w) in
  let w' := snd (main shell (Namespace filepath (Some server)) w) in
  status shell (forward_command fp server) (outside w) = 0%Z ->
  status shell (ssh_command fp server) o1 = 0%Z ->
  status shell (back_command fp server) o2 = 0%Z ->
  (forall text,
      snd o3 (resolve (w_cwd w) gzfile) <> Some (GzipText text)) ->
  r = inl (match snd o3 (resolve (w_cwd w) gzfile) with
           | None => FileNotFoundError gzfile
           | Some NotGzipText => BadGzipFile gzfile
           | Some (Unreadable Truncated) => EOFError
           | Some (Unreadable Undecodable) => UnicodeDecodeError
           | Some (Unreadable Denied) => PermissionError gzfile
           | Some (Unreadable (Other name)) => OtherError name
           | Some (ReadOnlyGzipText _) => PermissionError gzfile
           | Some (GzipText _) => PermissionError gzfile
           end)
  /\ exit_status r = 1%Z
  /\ gz_opens (w_trace w')
     = gz_opens (w_trace w)
         ++ gzfile :: match snd o3 (resolve (w_cwd w) gzfile) with
                      | Some (ReadOnlyGzipText _) => [gzfile]
                      | _ => []
                      end
  /\ w_fs w' = snd o3.
Proof.
  cbn zeta. intros H1 H2 H3 Hfile. apply Z.eqb_eq in H1, H2, H3.
  pose proof (main_outcome filepath server w) as H.
  cbn zeta in H. rewrite H1, H2, H3 in H. cbn [negb] in H.
  destruct H as (_ & _ & H). destruct_file H.
  - now destruct (Hfile text).
  - destruct H as (Hr & Hg & Hf). rewrite Hr. now repeat split.
  - destruct H as (Hr & Hg & Hf). rewrite Hr. now repeat split.
  - destruct H as (Hr & Hg & Hf). rewrite Hr.
    split; [now destruct why|]. split; [apply exit_status_read_exn|].
    now split.
  - destruct H as (Hr & Hg & Hf). rewrite Hr. now repeat split.
Qed.

Ltac exit_one :=
  split; [right; now left|];
  split; [split; discriminate|];
  split; [discriminate|];
  let Hn := fresh "Hn" in
  let H1 := fresh "H" in
  let H2 := fresh "H" in
  let H3 := fresh "H" in
  let H4 := fresh "H" in
  intros [Hn|(? & ? & ? & Hn & H1 & H2 & H3 & H4)]; [discriminate Hn|];
  injection Hn as <- <-; congruence.

(** X3.  The exit status of the process is 0, 1 or 2.  It is 2 exactly
    when argparse refuses the command line.  It is 0 exactly when the help
    was asked for, or when a file path and a server name were given, the
    three commands ended with status zero and the mapping file found in
    the working directory reads as text and may be rewritten. *)
Theorem exit_status_zero_iff (args : parse_result) (w : world) :
  let r := fst (main shell args w) in
  (exit_status r = 0%Z \/ exit_status r = 1%Z \/ exit_status r = 2%Z)
  /\ (exit_status r = 2%Z <-> args = UsageError)
  /\ (exit_status r = 0%Z
      <-> args = HelpRequested
          \/ exists filepath server text,
               let fp := Filepath_info_init filepath in
               let o1 := after shell (forward_command fp server) (outside w) in
               let o2 := after shell (ssh_command fp server) o1 in
               let o3 := after shell (back_command fp server) o2 in
               args = Namespace filepath (Some server)
               /\ status shell (forward_command fp server) (outside w) = 0%Z
               /\ status shell (ssh_command fp server) o1 = 0%Z
               /\ status shell (back_command fp server) o2 = 0%Z
               /\ snd o3 (resolve (w_cwd w) (synctex_gz_file fp))
                  = Some (GzipText text)).
Proof.
  cbn zeta. destruct args as [filepath [server|]| |].
  2: { cbn [main raise fst exit_status]. split; [right; now left|].
       split; [split; discriminate|]. split; [discriminate|].
       intros [H|(f & s & t & H & _)]; discriminate H. }
  2: { cbn. split; [now left|]. split; [split; discriminate|].
       split; [now left | reflexivity]. }
  2: { cbn. split; [right; now right|]. split; [now split|].
       split; [discriminate|].
       intros [H|(f & s & t & H & _)]; discriminate H. }
  pose proof (main_outcome filepath server w) as H. cbn zeta in H.
  destruct (Z.eqb_spec
              (status shell (forward_command (Filepath_info_init filepath)
                               server) (outside w)) 0) as [Hfwd|Hfwd];
    cbn [negb] in H.
  2: { destruct H as (-> & _). cbn [exit_status]. exit_one. }
  destruct (Z.eqb_spec
              (status shell (ssh_command (Filepath_info_init filepath) server)
                 (after shell
                    (forward_command (Filepath_info_init filepath) server)
                    (outside w))) 0) as [Hrc|Hrc];
    cbn [negb] in H.
  2: { destruct H as (-> & _). cbn [exit_status]. exit_one. }
  destruct (Z.eqb_spec
              (status shell (back_command (Filepath_info_init filepath) server)
                 (after shell
                    (ssh_command (Filepath_info_init filepath) server)
                    (after shell
                       (forward_command (Filepath_info_init filepath) server)
                       (outside w)))) 0) as [Hback|Hback];
    cbn [negb] in H.
  2: { destruct H as (-> & _). cbn [exit_status]. exit_one. }
  destruct H as (_ & _ & H).
  destruct_file H; destruct H as (-> & _);
    rewrite ?exit_status_read_exn; cbn [exit_status]; try exit_one.
  split; [now left|]. split; [split; discriminate|].
  split; [|reflexivity]. intros _. right.
  exists filepath, server, text. now repeat split.
Qed.

(** X4.  The commands of a run are the forward transfer, then the build,
    then the back-transfer, cut after the first that ends with a status
    that is not zero: the build is issued exactly when the forward
    transfer has succeeded, the back-transfer exactly when the build has
    too; and the mapping file is opened exactly when all three have ended
    with status zero. *)
Theorem commands_in_order (filepath server : str) (w : world) :
  let fp := Filepath_info_init filepath in
  let fwd := forward_command fp server in
  let ssh := ssh_command fp server in
  let back := back_command fp server in
  let o1 := after shell fwd (outside w) in
  let o2 := after shell ssh o1 in
  let w' := snd (main shell (Namespace filepath (Some server)) w) in
  commands (w_trace w')
  = commands (w_trace w)
      ++ fwd :: (if (status shell fwd (outside w) =? 0)%Z
                 then ssh :: (if (status shell ssh o1 =? 0)%Z
                              then [back] else [])
                 else [])
  /\ (gz_opens (w_trace w') <> gz_opens (w_trace w)
      <-> status shell fwd (outside w) = 0%Z
          /\ status shell ssh o1 = 0%Z
          /\ status shell back o2 = 0%Z).
Proof.
  cbn zeta. pose proof (main_outcome filepath server w) as H. cbn zeta in H.
  destruct (Z.eqb_spec
              (status shell (forward_command (Filepath_info_init filepath)
                               server) (outside w)) 0) as [Hfwd|Hfwd];
    cbn [negb] in H.
  2: { destruct H as (_ & Hc & Hg & _). split; [exact Hc|].
       split; [congruence | now intros (H1 & _)]. }
  destruct (Z.eqb_spec
              (status shell (ssh_command (Filepath_info_init filepath) server)
                 (after shell
                    (forward_command (Filepath_info_init filepath) server)
                    (outside w))) 0) as [Hrc|Hrc];
    cbn [negb] in H.
  2: { destruct H as (_ & Hc & Hg & _). split; [exact Hc|].
       split; [congruence | now intros (_ & H2 & _)]. }
  destruct (Z.eqb_spec
              (status shell (back_command (Filepath_info_init filepath) server)
                 (after shell
                    (ssh_command (Filepath_info_init filepath) server)
                    (after shell
                       (forward_command (Filepath_info_init filepath) server)
                       (outside w)))) 0) as [Hback|Hback];
    cbn [negb] in H.
  2: { destruct H as (_ & Hc & Hg & _). split; [exact Hc|].
       split; [congruence | now intros (_ & _ & H3)]. }
  destruct H as (Hc & _ & H). split; [exact Hc|].
  split; [now intros _|]. intros _.
  destruct_file H; destruct H as (_ & -> & _); apply app_cons_neq.
Qed.

(** X5.  [sync_forward] and [sync_back] run exactly one command; they
    return only the value 0, when the command ended with status zero, and
    raise their assertion error otherwise. *)
Theorem sync_returns_zero_or_raises (a b server : str) (w : world) :
  let rf := fst (sync_forward shell a b server w) in
  let wf := snd (sync_forward shell a b server w) in
  let rb := fst (sync_back shell a b server w) in
  let wb := snd (sync_back shell a b server w) in
  commands (w_trace wf)
  = commands (w_trace w) ++ [sync_forward_command a b server]
  /\ commands (w_trace wb)
     = commands (w_trace w) ++ [sync_back_command a b server]
  /\ (rf = inr 0%Z
      \/ rf = inl (AssertionError
                     "Forward rsync finished with nonzero exit code."))
  /\ (rb = inr 0%Z
      \/ rb = inl (AssertionError
                     "Rsync back finished with nonzero exit code."))
  /\ (rf = inr 0%Z
      <-> status shell (sync_forward_command a b server) (outside w) = 0%Z)
  /\ (rb = inr 0%Z
      <-> status shell (sync_back_command a b server) (outside w) = 0%Z).
Proof.
  cbn zeta. rewrite sync_forward_run, sync_back_run. cbn zeta.
  destruct (Z.eqb_spec
              (status shell (sync_forward_command a b server) (outside w)) 0)
    as [Ef|Ef];
    destruct (Z.eqb_spec
                (status shell (sync_back_command a b server) (outside w)) 0)
      as [Eb|Eb];
    cbn [fst snd]; rewrite ?Ef, ?Eb;
    (split; [trace_norm; reflexivity|]);
    (split; [trace_norm; reflexivity|]);
    (split; [auto|]); (split; [auto|]);
    split; split; intros H; auto; try discriminate; contradiction.
Qed.

Lemma trace_logged (e : event) (w : world) :
  w_trace (logged e w) = w_trace w ++ [e].
Proof. reflexivity. Qed.

Lemma trace_ran (command : str) (w : world) :
  w_trace (ran shell command w) = w_trace w ++ [Run command].
Proof. reflexivity. Qed.

Lemma cwd_written (gzfile text : str) (w : world) :
  w_cwd (written gzfile text w) = w_cwd w.
Proof. reflexivity. Qed.

Ltac events_norm :=
  repeat first
    [ rewrite trace_written | rewrite trace_logged | rewrite trace_ran
    | rewrite cwd_written | rewrite cwd_logged | rewrite cwd_ran ];
  rewrite <- ?app_assoc; cbn [app].

(** The events of a run with a server name, in order, and its working
    directory. *)
Lemma main_events (filepath server : str) (w : world) :
  let fp := Filepath_info_init filepath in
  let gzfile := synctex_gz_file fp in
  let fwd := forward_command fp server in
  let ssh := ssh_command fp server in
  let back := back_command fp server in
  let o1 := after shell fwd (outside w) in
  let o2 := after shell ssh o1 in
  let o3 := after shell back o2 in
  let w' := snd (main shell (Namespace filepath (Some server)) w) in
  w_cwd w' = w_cwd w
  /\ w_trace w'
     = w_trace w
         ++ Print ("Syncing " ++ folder fp ++ " to " ++ server ++ "...")
         :: Run fwd
         :: (if negb (status shell fwd (outside w) =? 0)%Z then []
             else
               Print " "
               :: Print "--------------------------------------"
               :: Print "----- latexmk output begins here -----"
               :: Print "--------------------------------------"
               :: Print " "
               :: Run ssh
               :: Print " "
               :: Print "--------------------------------------"
               :: Print "------ latexmk output ends here ------"
               :: Print "--------------------------------------"
               :: Print " "
               :: (if negb (status shell ssh o1 =? 0)%Z then
                     [Print ("Server-side latexmk run finished with nonzero exit code. "
                               ++ "                Not syncing back.")]
                   else
                     Print "latexmk run successful! Syncing back..."
                     :: Run back
                     :: (if negb (status shell back o2 =? 0)%Z then []
                         else
                           Print ("Fiddling with " ++ gzfile
                                    ++ " to make synctex work...")
                           :: GzOpenRead gzfile
                           :: match snd o3 (resolve (w_cwd w) gzfile) with
                              | Some (GzipText _) =>
                                  [GzOpenWrite gzfile;
                                   Print "Done! Exiting :)"]
                              | Some (ReadOnlyGzipText _) =>
                                  [GzOpenWrite gzfile]
                              | _ => []
                              end))).
Proof.
  cbn zeta. unfold forward_command, back_command.
  remember (main shell (Namespace filepath (Some server)) w) as res eqn:E.
  destruct (status shell _ (outside w) =? 0)%Z eqn:Hfwd; cbn [negb].
  2: { unfold main in E. run_step_in E.
       erewrite bind_inl in E;
         [|rewrite sync_forward_run; cbn zeta; outside_norm; rewrite Hfwd;
           reflexivity].
       subst res. cbn [fst snd]. split; events_norm; reflexivity. }
  run_to_build E Hfwd.
  match type of E with
  | context [negb (?x =? 0)%Z] => destruct (x =? 0)%Z eqn:Hrc
  end; cbn [negb] in E |- *.
  2: { erewrite bind_inl in E;
         [|erewrite bind_inr by apply print_run; reflexivity].
       subst res. cbn [fst snd]. split; events_norm; reflexivity. }
  run_step_in E.
  unfold bind at 1 in E. rewrite sync_back_run in E. cbn zeta in E.
  repeat first [rewrite outside_logged in E | rewrite outside_ran in E].
  match type of E with
  | context [if (?x =? 0)%Z then _ else _] => destruct (x =? 0)%Z eqn:Hback
  end; cbn beta iota in E; cbn [negb].
  2: { subst res. cbn [fst snd]. split; events_norm; reflexivity. }
  run_step_in E. unfold bind at 1 in E. rewrite sanitize_synctex_run in E.
  rewrite w_fs_outside in E.
  repeat first [rewrite outside_logged in E | rewrite outside_ran in E
               | rewrite cwd_logged in E | rewrite cwd_ran in E].
  match type of E with
  | context [match ?x with None => _ | _ => _ end] =>
      destruct x as [[text|text| |why]|] eqn:Efile
  end; cbn beta iota in E; rewrite ?print_run in E; subst res;
    cbn [fst snd]; split; events_norm; reflexivity.
Qed.

Lemma fs_write_other (fs : FS) (path p : str) (f : file) :
  p <> path -> fs_write fs path f p = fs p.
Proof.
  intros H. unfold fs_write. apply str_eqb_neq in H. now rewrite H.
Qed.

(** X21.  The script changes nothing by itself but the mapping file.  It
    never changes its working directory.  When argparse ends the process,
    or no server name was given, no command runs and the outside is
    untouched.  Otherwise the rest of the outside is as the last command
    that ran left it, the forward transfer if it failed, else the build if
    it failed, else the back-transfer; so is every file other than the
    mapping file; and the mapping file itself differs only when the three
    commands have succeeded and it was read as text that may be
    rewritten. *)
Theorem run_touches_only_mapping_file (args : parse_result) (w : world) :
  let w' := snd (main shell args w) in
  w_cwd w' = w_cwd w
  /\ match args with
     | Namespace filepath (Some server) =>
         let fp := Filepath_info_init filepath in
         let gzfile := resolve (w_cwd w) (synctex_gz_file fp) in
         let fwd := forward_command fp server in
         let ssh := ssh_command fp server in
         let back := back_command fp server in
         let o1 := after shell fwd (outside w) in
         let o2 := after shell ssh o1 in
         let o3 := after shell back o2 in
         let o := if negb (status shell fwd (outside w) =? 0)%Z then o1
                  else if negb (status shell ssh o1 =? 0)%Z then o2
                       else o3 in
         w_env w' = fst o
         /\ (forall p, p <> gzfile -> w_fs w' p = snd o p)
         /\ (w_fs w' gzfile <> snd o gzfile ->
             status shell fwd (outside w) = 0%Z
             /\ status shell ssh o1 = 0%Z
             /\ status shell back o2 = 0%Z
             /\ exists text, snd o3 gzfile = Some (GzipText text))
     | _ =>
         outside w' = outside w
         /\ commands (w_trace w') = commands (w_trace w)
     end.
Proof.
  cbn zeta. destruct args as [filepath [server|]| |].
  2: { now repeat split. }
  2: { split; [reflexivity|]. split; [reflexivity|].
       unfold commands. cbn [main bind log sys_exit raise snd w_trace].
       rewrite flat_map_app. apply app_nil_r. }
  2: { split; [reflexivity|]. split; [reflexivity|].
       unfold commands. cbn [main bind log sys_exit raise snd w_trace].
       rewrite flat_map_app. apply app_nil_r. }
  split; [apply main_events|].
  pose proof (main_outcome filepath server w) as H. cbn zeta in H.
  destruct (Z.eqb_spec
              (status shell (forward_command (Filepath_info_init filepath)
                               server) (outside w)) 0) as [Hfwd|Hfwd];
    cbn [negb] in H |- *.
  2: { destruct H as (_ & _ & _ & Ho). rewrite <- Ho.
       split; [reflexivity|]. split; [reflexivity|]. now intros []. }
  destruct (Z.eqb_spec
              (status shell (ssh_command (Filepath_info_init filepath) server)
                 (after shell
                    (forward_command (Filepath_info_init filepath) server)
                    (outside w))) 0) as [Hrc|Hrc];
    cbn [negb] in H |- *.
  2: { destruct H as (_ & _ & _ & Ho). rewrite <- Ho.
       split; [reflexivity|]. split; [reflexivity|]. now intros []. }
  destruct (Z.eqb_spec
              (status shell (back_command (Filepath_info_init filepath) server)
                 (after shell
                    (ssh_command (Filepath_info_init filepath) server)
                    (after shell
                       (forward_command (Filepath_info_init filepath) server)
                       (outside w)))) 0) as [Hback|Hback];
    cbn [negb] in H |- *.
  2: { destruct H as (_ & _ & _ & Ho). rewrite <- Ho.
       split; [reflexivity|]. split; [reflexivity|]. now intros []. }
  destruct H as (_ & He & H). split; [exact He|].
  destruct_file H; destruct H as (_ & _ & ->).
  - split; [intros p Hp; now apply fs_write_other|].
    intros _. repeat split; try assumption. now exists text.
  - split; [reflexivity | now intros []].
  - split; [reflexivity | now intros []].
  - split; [reflexivity | now intros []].
  - split; [reflexivity | now intros []].
Qed.

Ltac refute_event H :=
  repeat (destruct H as [H|H];
          [ try discriminate H;
            try (injection H as H; cbn [app list_ascii_of_string] in H;
                 discriminate H)
          | ]);
  try destruct H.

Ltac announce :=
  split; [split | split; split];
  first
    [ solve [intros H; refute_event H]
    | solve [intros [H1 H2]; congruence]
    | solve [intros E; discriminate E]
    | solve [intros _; split; assumption]
    | solve [intros _; reflexivity]
    | solve [intros _; do 13 right; now left]
    | solve [intros _; do 18 right; now left] ].

(** X22.  The announcements of a run are truthful.  A run only adds events
    to the trace, the first being the line that announces the forward
    transfer; the line that announces the back-transfer is printed exactly
    when the forward transfer and the build have ended with status zero,
    the line that reports the failed build exactly when the forward
    transfer has succeeded and the build has not, and the closing line
    exactly when the process ends with status 0. *)
Theorem announcements_are_truthful (filepath server : str) (w : world) :
  let fp := Filepath_info_init filepath in
  let o1 := after shell (forward_command fp server) (outside w) in
  let r := fst (main shell (Namespace filepath (Some server)) w) in
  let w' := snd (main shell (Namespace filepath (Some server)) w) in
  exists t,
    w_trace w' = w_trace w ++ t
    /\ hd_error t
       = Some (Print ("Syncing " ++ folder fp ++ " to " ++ server ++ "..."))
    /\ (In (Print "latexmk run successful! Syncing back...") t
        <-> status shell (forward_command fp server) (outside w) = 0%Z
            /\ status shell (ssh_command fp server) o1 = 0%Z)
    /\ (In (Print ("Server-side latexmk run finished with nonzero exit code. "
                     ++ "                Not syncing back.")) t
        <-> status shell (forward_command fp server) (outside w) = 0%Z
            /\ status shell (ssh_command fp server) o1 <> 0%Z)
    /\ (In (Print "Done! Exiting :)") t <-> exit_status r = 0%Z).
Proof.
  cbn zeta.
  pose proof (main_outcome filepath server w) as H. cbn zeta in H.
  destruct (main_events filepath server w) as (_ & Ht). cbn zeta in Ht.
  eexists. split; [exact Ht|]. split; [reflexivity|]. clear Ht.
  destruct (Z.eqb_spec
              (status shell (forward_command (Filepath_info_init filepath)
                               server) (outside w)) 0) as [Hfwd|Hfwd];
    cbn [negb] in H |- *.
  2: { destruct H as (-> & _). cbn [exit_status]. announce. }
  destruct (Z.eqb_spec
              (status shell (ssh_command (Filepath_info_init filepath) server)
                 (after shell
                    (forward_command (Filepath_info_init filepath) server)
                    (outside w))) 0) as [Hrc|Hrc];
    cbn [negb] in H |- *.
  2: { destruct H as (-> & _). cbn [exit_status]. announce. }
  destruct (status shell (back_command _ server) _ =? 0)%Z;
    cbn [negb] in H |- *.
  2: { destruct H as (-> & _). cbn [exit_status]. announce. }
  destruct H as (_ & _ & H).
  destruct_file H; destruct H as (-> & _);
    rewrite ?exit_status_read_exn; cbn [exit_status]; announce.
Qed.

End DriverFacts.

Lemma forward_failure_is_fatal_witness :
  exit_status
    (fst (main shell_unreachable (Namespace "/home/u/proj/topic/notes.tex"
            (Some (list_ascii_of_string "host1")))
            (start "/home/u/proj/topic"))) = 1%Z
  /\ gz_opens
       (w_trace
          (snd (main shell_unreachable (Namespace "/home/u/proj/topic/notes.tex"
                  (Some (list_ascii_of_string "host1")))
                  (start "/home/u/proj/topic")))) = [].
Proof.
  destruct (@forward_failure_is_fatal unit shell_unreachable
              "/home/u/proj/topic/notes.tex" "host1"
              (start "/home/u/proj/topic"))
    as (_ & H2 & _ & H4 & _).
  - vm_compute. discriminate.
  - split; [exact H2 | exact H4].
Defined.

Lemma build_status_decides_witness :
  exit_status
    (fst (main shell_build_fails (Namespace "/home/u/proj/topic/notes.tex"
            (Some (list_ascii_of_string "host1")))
            (start "/home/u/proj/topic"))) = 1%Z
  /\ gz_opens
       (w_trace
          (snd (main shell_build_fails (Namespace "/home/u/proj/topic/notes.tex"
                  (Some (list_ascii_of_string "host1")))
                  (start "/home/u/proj/topic")))) = [].
Proof.
  destruct (@build_status_decides unit shell_build_fails
              "/home/u/proj/topic/notes.tex" "host1"
              (start "/home/u/proj/topic"))
    as ((_ & H2 & _ & H4 & _) & _).
  - vm_compute. reflexivity.
  - vm_compute. discriminate.
  - split; [exact H2 | exact H4].
Defined.

Lemma repair_path_is_relative_witness :
  let fp := Filepath_info_init "/home/u/proj/topic/notes.tex" in
  ~ In sep (synctex_gz_file fp)
  /\ (resolve "/home/u/proj/topic" (synctex_gz_file fp)
      = synced_back_mapping_file fp
      <-> with_sep "/home/u/proj/topic"
          = with_sep (os_path.join (bottom_folders fp) (top_folder fp))).
Proof.
  destruct (@repair_path_is_relative unit shell_brings_mapping
              "/home/u/proj/topic/notes.tex" "host1"
              (start "/home/u/proj/topic"))
    as (_ & H2 & _ & _ & _ & H6); [vm_compute; reflexivity..|].
  split; [exact H2 | exact H6].
Defined.

(** The scenario of the specification, run from the folder of the
    document: every step succeeds and the mapping file is repaired. *)
Example scenario_success :
  let res := main shell_brings_mapping (Namespace "/home/u/proj/topic/notes.tex"
               (Some (list_ascii_of_string "host1")))
               (start "/home/u/proj/topic") in
  fst res = inr tt
  /\ exit_status (fst res) = 0%Z
  /\ commands (w_trace (snd res))
     = [ "rsync -a -h --exclude=" ++ [DQUOTE] ++ ".[!.]*" ++ [DQUOTE]
           ++ " --info=progress2 /home/u/proj/topic host1:/tmp";
         "ssh host1 " ++ [DQUOTE]
           ++ "cd /tmp/topic && latexmk -pdf -interaction=nonstopmode -synctex=1 -verbose -f notes.tex"
           ++ [DQUOTE];
         "rsync -a -h --exclude=" ++ [DQUOTE] ++ "(.[!.]*|*.tex)" ++ [DQUOTE]
           ++ " --info=progress2 host1:/tmp/topic /home/u/proj" ]
  /\ gz_opens (w_trace (snd res))
     = [list_ascii_of_string "notes.synctex.gz";
        list_ascii_of_string "notes.synctex.gz"]
  /\ w_fs (snd res) "/home/u/proj/topic/notes.synctex.gz"
     = Some (GzipText ("/home/u/proj/topic/notes.tex:12:34" ++ [LF])).
Proof. vm_compute. repeat split. Qed.

(** The same run started from another directory: the back-transfer has
    put the mapping file into the folder of the document, the repair looks
    for it in the working directory and fails. *)
Example scenario_other_directory :
  let res := main shell_brings_mapping (Namespace "/home/u/proj/topic/notes.tex"
               (Some (list_ascii_of_string "host1"))) (start "/home/u") in
  fst res = inl (FileNotFoundError "notes.synctex.gz")
  /\ exit_status (fst res) = 1%Z
  /\ w_fs (snd res) "/home/u/proj/topic/notes.synctex.gz"
     = Some (GzipText ("/tmp/topic/./notes.tex:12:34" ++ [LF])).
Proof. vm_compute. repeat split. Qed.

(** The scenario of a failing build. *)
Example scenario_build_failure :
  let res := main shell_build_fails (Namespace "/home/u/proj/topic/notes.tex"
               (Some (list_ascii_of_string "host1")))
               (start "/home/u/proj/topic") in
  fst res = inl (SystemExit 1)
  /\ exit_status (fst res) = 1%Z
  /\ length (commands (w_trace (snd res))) = 2
  /\ gz_opens (w_trace (snd res)) = [].
Proof. vm_compute. repeat split. Qed.

(** The mapping file that cannot be read or written: a truncated stream,
    bytes that are no text, a file that may not be written; and the empty
    file, which reads as the empty text. *)
Example scenario_mapping_file_states :
  let run f :=
    main (shell_brings f) (Namespace "/home/u/proj/topic/notes.tex"
      (Some (list_ascii_of_string "host1"))) (start "/home/u/proj/topic") in
  let at_end f :=
    w_fs (snd (run f)) "/home/u/proj/topic/notes.synctex.gz" in
  fst (run (Unreadable Truncated)) = inl EOFError
  /\ fst (run (Unreadable Undecodable)) = inl UnicodeDecodeError
  /\ fst (run NotGzipText) = inl (BadGzipFile "notes.synctex.gz")
  /\ fst (run (ReadOnlyGzipText ("/tmp/topic/notes.tex" ++ [LF])))
     = inl (PermissionError "notes.synctex.gz")
  /\ at_end (ReadOnlyGzipText ("/tmp/topic/notes.tex" ++ [LF]))
     = Some (ReadOnlyGzipText ("/tmp/topic/notes.tex" ++ [LF]))
  /\ at_end (Unreadable Truncated) = Some (Unreadable Truncated)
  /\ fst (run (GzipText [])) = inr tt
  /\ at_end (GzipText []) = Some (GzipText []).
Proof. vm_compute. repeat split. Qed.

(** The ends of the process that argparse decides. *)
Example scenario_argparse :
  let run args := main shell_always_ok args (start "/home/u/proj/topic") in
  exit_status (fst (run HelpRequested)) = 0%Z
  /\ exit_status (fst (run UsageError)) = 2%Z
  /\ fst (run (Namespace "/home/u/proj/topic/notes.tex" None)) = inl TypeError
  /\ commands (w_trace (snd (run HelpRequested))) = []
  /\ commands (w_trace (snd (run UsageError))) = [].
Proof. vm_compute. repeat split. Qed.

(** * The exclusion of the back-transfer *)

Lemma wildmatch_last (ts : list rsync.token) (c : ascii) :
  forall name,
    rsync.wildmatch (ts ++ [rsync.Lit c]) name = true ->
    name <> [] /\ last name c = c.
Proof.
  induction ts as [|t ts IH]; intros name H.
  - cbn [app rsync.wildmatch] in H. destruct name as [|d name]; [discriminate|].
    cbn [rsync.token_matches] in H. apply andb_true_iff in H as [H1 H2].
    apply Ascii.eqb_eq in H1. subst d.
    destruct name; [|discriminate]. split; [discriminate | reflexivity].
  - assert (Hcons : forall d name',
               name' <> [] /\ last name' c = c ->
               d :: name' <> [] /\ last (d :: name') c = c).
    { intros d name' [Hn Hl]. split; [discriminate|].
      destruct name'; [congruence | exact Hl]. }
    destruct t; cbn [app rsync.wildmatch] in H;
      try (destruct name as [|d name]; [discriminate|];
           apply andb_true_iff in H as [_ H]; apply Hcons, IH, H).
    induction name as [|d name IHn].
    + rewrite orb_false_r in H. now apply IH.
    + apply orb_true_iff in H as [H|H]; [now apply IH|].
      apply andb_true_iff in H as [_ H]. apply Hcons, IHn, H.
Qed.

(** What the pattern of the back-transfer leaves out begins with an
    opening parenthesis and ends with a closing one. *)
Lemma back_exclude_tokens :
  rsync.tokens (length back_exclude) back_exclude
  = [rsync.Lit "("; rsync.Lit "."; rsync.Class true ["."%char];
     rsync.Star; rsync.Lit "|"; rsync.Star; rsync.Lit ".";
     rsync.Lit "t"; rsync.Lit "e"; rsync.Lit "x"]
      ++ [rsync.Lit ")"].
Proof. vm_compute. reflexivity. Qed.

Lemma back_exclude_shape (name : str) :
  rsync.excludes back_exclude name = true ->
  startswith name "(" = true /\ last name ")"%char = ")"%char.
Proof.
  unfold rsync.excludes. rewrite back_exclude_tokens. intros H. split.
  - cbn [app rsync.wildmatch] in H.
    destruct name as [|c name]; [discriminate|].
    apply andb_true_iff in H as [H _]. cbn [rsync.token_matches] in H.
    change (list_ascii_of_string "(") with ["("%char].
    cbn [startswith]. now rewrite H, startswith_nil.
  - now apply wildmatch_last in H.
Qed.

Lemma back_exclude_keeps_hidden (name : str) :
  startswith name "." = true -> rsync.excludes back_exclude name = false.
Proof.
  intros H. destruct (rsync.excludes back_exclude name) eqn:E; [|reflexivity].
  apply back_exclude_shape in E as [E _].
  destruct name as [|c name]; [discriminate|].
  change (list_ascii_of_string ".") with ["."%char] in H.
  change (list_ascii_of_string "(") with ["("%char] in E.
  cbn [startswith] in *. rewrite startswith_nil, andb_true_r in H, E.
  apply Ascii.eqb_eq in H, E. congruence.
Qed.

Lemma back_exclude_keeps_sources (name : str) :
  endswith name ".tex" = true -> rsync.excludes back_exclude name = false.
Proof.
  intros H. destruct (rsync.excludes back_exclude name) eqn:E; [|reflexivity].
  apply back_exclude_shape in E as [_ E]. unfold endswith in H.
  apply startswith_iff in H as [r Hr].
  assert (Hn : name = rev r ++ ".tex").
  { rewrite <- (rev_involutive name), Hr, rev_app_distr, rev_involutive.
    reflexivity. }
  subst name.
  change (list_ascii_of_string ".tex") with (".te" ++ ["x"%char]) in E.
  rewrite app_assoc, last_last in E. discriminate.
Qed.

(** C7, at the failing input.  The option of the back-transfer is the one
    wildcard [(.[!.]*|*.tex)]; as rsync reads wildcards it leaves out names
    such as [(.git|notes.tex)] and neither the source [notes.tex] nor the
    hidden [.git], which the pattern of the forward transfer does leave
    out. *)
Theorem back_exclude_at_source_file :
  sync_back_command "/tmp/topic" "/home/u/proj" "host1"
  = "rsync -a -h --exclude=" ++ [DQUOTE] ++ "(.[!.]*|*.tex)" ++ [DQUOTE]
      ++ " --info=progress2 host1:/tmp/topic /home/u/proj"
  /\ rsync.excludes back_exclude "notes.tex" = false
  /\ rsync.excludes back_exclude ".git" = false
  /\ rsync.excludes forward_exclude ".git" = true
  /\ rsync.excludes back_exclude "(.git|notes.tex)" = true.
Proof. vm_compute. repeat split. Qed.

(** * More on the driver *)

Lemma back_failure_is_fatal_witness :
  fst (main shell_back_fails (Namespace "/home/u/proj/topic/notes.tex"
         (Some (list_ascii_of_string "host1"))) (start "/home/u/proj/topic"))
  = inl (AssertionError "Rsync back finished with nonzero exit code.")
  /\ gz_opens
       (w_trace
          (snd (main shell_back_fails (Namespace "/home/u/proj/topic/notes.tex"
                  (Some (list_ascii_of_string "host1")))
                  (start "/home/u/proj/topic")))) = [].
Proof.
  destruct (@back_failure_is_fatal unit shell_back_fails
              "/home/u/proj/topic/notes.tex" "host1"
              (start "/home/u/proj/topic"))
    as (H1 & _ & _ & H4 & _).
  - vm_compute. reflexivity.
  - vm_compute. reflexivity.
  - vm_compute. discriminate.
  - split; [exact H1 | exact H4].
Defined.

Lemma unreadable_mapping_file_witness :
  fst (main shell_always_ok (Namespace "/home/u/proj/topic/notes.tex"
         (Some (list_ascii_of_string "host1"))) (start "/home/u/proj/topic"))
  = inl (FileNotFoundError "notes.synctex.gz")
  /\ exit_status
       (fst (main shell_always_ok (Namespace "/home/u/proj/topic/notes.tex"
               (Some (list_ascii_of_string "host1")))
               (start "/home/u/proj/topic"))) = 1%Z.
Proof.
  destruct (@unreadable_mapping_file unit shell_always_ok
              "/home/u/proj/topic/notes.tex" "host1"
              (start "/home/u/proj/topic"))
    as (H1 & H2 & _).
  - vm_compute. reflexivity.
  - vm_compute. reflexivity.
  - vm_compute. reflexivity.
  - intros text. vm_compute. discriminate.
  - split; [exact H1 | exact H2].
Defined.

(** * More on the repair *)

Lemma split_lines_flat (s : str) : concat (split_lines s) = s.
Proof.
  induction s as [|c s IH]; [reflexivity|]. cbn [split_lines].
  destruct (Ascii.eqb c LF) eqn:E.
  - apply Ascii.eqb_eq in E. subst c. cbn [concat app]. now rewrite IH.
  - destruct (split_lines s) as [|line lines]; cbn [concat app] in *;
      now rewrite <- IH.
Qed.

Lemma in_split_lines (s line : str) (x : ascii) :
  In line (split_lines s) -> In x line -> In x s.
Proof.
  intros Hl Hx. rewrite <- (split_lines_flat s). apply in_concat.
  now exists line.
Qed.

Lemma translate_newlines_chars_bounded (n : nat) :
  forall s x, length s <= n ->
    In x (translate_newlines s) -> In x s \/ x = LF.
Proof.
  induction n as [|n IH]; intros s x Hlen H.
  - destruct s; [destruct H | cbn [length] in Hlen; lia].
  - destruct s as [|c s]; [destruct H|]. cbn [length] in Hlen.
    cbn [translate_newlines] in H. destruct (Ascii.eqb c CR).
    + destruct H as [<-|H]; [now right|].
      destruct s as [|d s]; [destruct H|].
      destruct (Ascii.eqb d LF).
      * apply IH in H; [|cbn [length] in Hlen; lia].
        destruct H as [H|H]; [left; right; now right | now right].
      * apply IH in H; [|cbn [length] in *; lia].
        destruct H as [H|H]; [left; now right | now right].
    + destruct H as [<-|H]; [left; now left|].
      apply IH in H; [|lia]. destruct H as [H|H]; [left; now right | now right].
Qed.

Lemma replace_chars_any (s old new : str) (x : ascii) :
  In x (replace s old new) -> In x s \/ In x new.
Proof.
  destruct old as [|o old'] eqn:E.
  - unfold replace. intros H. apply in_app_or in H as [H|H]; [now right|].
    apply in_flat_map in H as (c & Hc & [<-|H]); [now left | now right].
  - apply replace_chars. discriminate.
Qed.

(** X6.  The repair invents no text: every character written is a
    character of the file read, a line feed (which a carriage return of
    the file reads as), a character of the local directory, a separator or
    a dot.  In particular a file with carriage returns is written back
    without any, unless the local directory holds one. *)
Theorem sanitize_text_characters (text current_directory target_directory : str) :
  (forall x,
      In x (sanitize_text text current_directory target_directory) ->
      In x text \/ x = LF \/ In x current_directory \/ x = sep \/ x = extsep)
  /\ (~ In CR current_directory ->
      ~ In CR (sanitize_text text current_directory target_directory)).
Proof.
  assert (Hline : forall line x,
             In line (read_lines text) ->
             In x (sanitize_line current_directory target_directory line) ->
             In x (translate_newlines text) \/ In x current_directory
             \/ x = sep \/ x = extsep).
  { intros line x Hl Hx. unfold sanitize_line in Hx.
    apply normpath_chars in Hx as [Hx|Hx]; [|now (right; right)].
    apply replace_chars_any in Hx as [Hx|Hx]; [left | right; now left].
    now apply in_split_lines with line. }
  assert (Hout : forall x,
             In x (sanitize_text text current_directory target_directory) ->
             In x (translate_newlines text) \/ In x current_directory
             \/ x = sep \/ x = extsep).
  { intros x Hx. unfold sanitize_text in Hx. apply in_concat in Hx
      as (newline & Hn & Hx).
    apply in_map_iff in Hn as (line & <- & Hl). now apply Hline with line. }
  split.
  - intros x Hx. apply Hout in Hx as [Hx|Hx]; [|now (right; right)].
    apply translate_newlines_chars_bounded with (n := length text) in Hx;
      [|lia].
    destruct Hx as [Hx|Hx]; [now left | right; now left].
  - intros Hcr Hx. apply Hout in Hx as [Hx|[Hx|[Hx|Hx]]].
    + now apply translate_newlines_clean in Hx.
    + auto.
    + discriminate.
    + discriminate.
Qed.

(** X7.  A file without carriage returns in which no line contains the
    remote root and every line is already normalized is written back
    unchanged. *)
Theorem sanitize_text_clean_file (text current_directory target_directory : str) :
  ~ In CR text ->
  (forall line,
      In line (read_lines text) ->
      contains target_directory line = false
      /\ os_path.normpath line = line) ->
  sanitize_text text current_directory target_directory = text.
Proof.
  intros Hcr Hlines. unfold sanitize_text.
  rewrite (map_ext_in _ (fun line => line)).
  - rewrite map_id. unfold read_lines.
    rewrite translate_newlines_no_CR by exact Hcr. apply split_lines_flat.
  - intros line Hl. destruct (Hlines line Hl) as [H1 H2].
    unfold sanitize_line. now rewrite replace_absent.
Qed.

Lemma sanitize_text_clean_file_witness :
  sanitize_text ("SyncTeX Version:1" ++ [LF] ++ "Input:1:/home/u/proj/a.tex"
                   ++ [LF])
    "/home/u/proj" SERVER_TARGET_DIR
  = "SyncTeX Version:1" ++ [LF] ++ "Input:1:/home/u/proj/a.tex" ++ [LF].
Proof.
  apply (@sanitize_text_clean_file
           ("SyncTeX Version:1" ++ [LF] ++ "Input:1:/home/u/proj/a.tex"
              ++ [LF])
           "/home/u/proj" SERVER_TARGET_DIR).
  - vm_compute. intuition discriminate.
  - intros line H. vm_compute in H. destruct H as [<-|[<-|[]]];
      vm_compute; split; reflexivity.
Defined.

(** X8.  The repair deletes no line: every line read gives an output that
    is not empty, a line the substitution empties being written as a dot;
    so the file written is empty only when the file read is. *)
Theorem sanitize_text_keeps_lines (text current_directory target_directory : str) :
  (forall line,
      sanitize_line current_directory target_directory line <> []
      /\ (replace line target_directory current_directory = [] ->
          sanitize_line current_directory target_directory line = dot))
  /\ (sanitize_text text current_directory target_directory = []
      <-> text = []).
Proof.
  split.
  - intros line. split; [apply normpath_not_nil|].
    unfold sanitize_line. now intros ->.
  - split.
    + intros H. destruct text as [|c text]; [reflexivity|]. exfalso.
      revert H. unfold sanitize_text. apply concat_not_nil.
      * intros Hm. apply map_eq_nil in Hm. revert Hm.
        apply read_lines_not_nil. discriminate.
      * intros line Hl. apply in_map_iff in Hl as (l0 & <- & _).
        apply normpath_not_nil.
    + intros ->. reflexivity.
Qed.

Lemma translate_newlines_cut_bounded (n : nat) :
  forall a b, length a <= n ->
    translate_newlines (a ++ LF :: b)
    = translate_newlines (a ++ [LF]) ++ translate_newlines b.
Proof.
  induction n as [|n IH]; intros a b Hlen.
  - destruct a; [reflexivity | cbn [length] in Hlen; lia].
  - destruct a as [|c a]; [reflexivity|]. cbn [length] in Hlen.
    cbn [app translate_newlines]. destruct (Ascii.eqb c CR).
    + destruct a as [|d a]; [reflexivity|]. cbn [app].
      destruct (Ascii.eqb d LF); cbn [app]; f_equal.
      * apply IH. cbn [length] in Hlen. lia.
      * apply (IH (d :: a)). lia.
    + cbn [app]. f_equal. apply IH. lia.
Qed.

Lemma translate_newlines_ends_bounded (n : nat) :
  forall a, length a <= n ->
    exists t, translate_newlines (a ++ [LF]) = t ++ [LF].
Proof.
  induction n as [|n IH]; intros a Hlen.
  - destruct a; [now exists [] | cbn [length] in Hlen; lia].
  - destruct a as [|c a]; [now exists []|]. cbn [length] in Hlen.
    cbn [app translate_newlines]. destruct (Ascii.eqb c CR).
    + destruct a as [|d a]; [now exists []|]. cbn [app].
      destruct (Ascii.eqb d LF).
      * destruct (IH a) as [t Ht]; [cbn [length] in Hlen; lia|].
        rewrite Ht. now exists (LF :: t).
      * destruct (IH (d :: a)) as [t Ht]; [lia|].
        cbn [app] in Ht. rewrite Ht. now exists (LF :: t).
    + destruct (IH a) as [t Ht]; [lia|]. rewrite Ht. now exists (c :: t).
Qed.

Lemma split_lines_cut (x y : str) :
  split_lines (x ++ LF :: y) = split_lines (x ++ [LF]) ++ split_lines y.
Proof.
  induction x as [|c x IH]; [reflexivity|]. cbn [app split_lines].
  destruct (Ascii.eqb c LF).
  - cbn [app]. now rewrite IH.
  - rewrite IH. destruct (split_lines (x ++ [LF])) as [|line lines] eqn:E;
      [|reflexivity].
    exfalso. assert (H : concat (split_lines (x ++ [LF])) = x ++ [LF])
      by apply split_lines_flat.
    rewrite E in H. destruct x; discriminate.
Qed.

Lemma read_lines_cut (a b : str) :
  read_lines (a ++ LF :: b) = read_lines (a ++ [LF]) ++ read_lines b.
Proof.
  unfold read_lines.
  rewrite (@translate_newlines_cut_bounded (length a)) by lia.
  destruct (@translate_newlines_ends_bounded (length a) a) as [t Ht]; [lia|].
  rewrite Ht, <- app_assoc. cbn [app]. apply split_lines_cut.
Qed.

(** X9.  The repair works line by line: cutting the file after any line
    feed and repairing the two parts apart gives the two parts of the
    repaired file. *)
Theorem sanitize_text_cut (a b current_directory target_directory : str) :
  sanitize_text (a ++ LF :: b) current_directory target_directory
  = sanitize_text (a ++ [LF]) current_directory target_directory
      ++ sanitize_text b current_directory target_directory.
Proof.
  unfold sanitize_text. now rewrite read_lines_cut, map_app, concat_app.
Qed.

(** * More on the path decomposition *)

Lemma rstrip_not_endswith (s : str) (c : ascii) :
  endswith (rstrip s c) [c] = false.
Proof.
  unfold endswith, rstrip. rewrite rev_involutive. cbn [rev app].
  induction (rev s) as [|y l IH]; [reflexivity|].
  cbn [lstrip]. destruct (Ascii.eqb y c) eqn:E; [exact IH|].
  cbn [startswith]. now rewrite Ascii.eqb_sym, E.
Qed.

Lemma split_head_form (p : str) :
  all_sep (fst (os_path.split p))
  \/ endswith (fst (os_path.split p)) [sep] = false.
Proof.
  destruct (rfind_spec p sep) as [(_ & Hn)|(a & b & -> & Hb & _)].
  - rewrite split_no_sep by exact Hn. now left.
  - rewrite split_at_last_sep by exact Hb. cbn [fst].
    destruct (str_eqb (a ++ [sep]) (repeat sep (length (a ++ [sep])))) eqn:E;
      cbn [negb].
    + left. now apply str_eqb_eq in E.
    + right. apply rstrip_not_endswith.
Qed.

(** X10.  The file name, the stem, the extension and the top folder never
    contain a separator, whatever the path. *)
Theorem Filepath_info_names_without_separator (path : str) :
  let fp := Filepath_info_init path in
  ~ In sep (filename fp) /\ ~ In sep (stem fp) /\ ~ In sep (extension fp)
  /\ ~ In sep (top_folder fp).
Proof.
  cbn zeta.
  destruct (Filepath_info_fields path) as (H1 & H2 & H3 & H4 & _ & H6).
  assert (Hf : ~ In sep (filename (Filepath_info_init path)))
    by (rewrite H2; apply split_tail_no_sep).
  split; [exact Hf|].
  rewrite <- (splitext_app (filename (Filepath_info_init path))) in Hf.
  rewrite <- H3, <- H4 in Hf.
  split; [|split].
  - intros H. apply Hf, in_or_app. now left.
  - intros H. apply Hf, in_or_app. now right.
  - rewrite H6. apply split_tail_no_sep.
Qed.

(** X11.  The folder and the bottom folder carry no final separator: each
    is made of separators only (the root, or empty) or does not end with
    one. *)
Theorem Filepath_info_folders_without_final_separator (path : str) :
  let fp := Filepath_info_init path in
  (all_sep (folder fp) \/ endswith (folder fp) [sep] = false)
  /\ (all_sep (bottom_folders fp)
      \/ endswith (bottom_folders fp) [sep] = false).
Proof.
  cbn zeta.
  destruct (Filepath_info_fields path) as (H1 & _ & _ & _ & H5 & _).
  rewrite H5, H1. split; apply split_head_form.
Qed.

Lemma join_under_root (name : str) :
  ~ In sep name ->
  os_path.join SERVER_TARGET_DIR name = "/tmp/" ++ name.
Proof. intros H. now rewrite join_relative. Qed.

(** X12.  The folder of the build on the server is always the remote root,
    a separator and the top folder: since the top folder has no separator,
    the join never drops the remote root. *)
Theorem remote_folder_under_root (path server : str) :
  let fp := Filepath_info_init path in
  os_path.join SERVER_TARGET_DIR (top_folder fp) = "/tmp/" ++ top_folder fp
  /\ ssh_command fp server
     = "ssh " ++ server ++ " " ++ [DQUOTE] ++ "cd /tmp/" ++ top_folder fp
         ++ " && " ++ LATEXMK_COMMAND ++ " " ++ filename fp ++ [DQUOTE]
  /\ back_command fp server
     = "rsync -a -h --exclude=" ++ [DQUOTE] ++ back_exclude ++ [DQUOTE]
         ++ " --info=progress2 " ++ server ++ ":/tmp/" ++ top_folder fp
         ++ " " ++ bottom_folders fp.
Proof.
  cbn zeta.
  assert (Ht : ~ In sep (top_folder (Filepath_info_init path))).
  { destruct (Filepath_info_fields path) as (_ & _ & _ & _ & _ & H6).
    rewrite H6. apply split_tail_no_sep. }
  split; [now apply join_under_root|]. split.
  - unfold ssh_command. rewrite join_under_root by exact Ht.
    now rewrite <- !app_assoc.
  - unfold back_command, sync_back_command.
    rewrite join_under_root by exact Ht. now rewrite <- !app_assoc.
Qed.

Lemma not_all_sep (s : str) (x : ascii) :
  In x s -> x <> sep -> str_eqb s (repeat sep (length s)) = false.
Proof.
  intros Hin Hx. apply str_eqb_neq. intros E. rewrite E in Hin.
  apply repeat_spec in Hin. contradiction.
Qed.

(** [os.path.split] of a directory, a separator and a name. *)
Lemma split_dir_name (d name : str) :
  d <> [] -> endswith d [sep] = false -> ~ In sep name ->
  os_path.split (d ++ sep :: name) = (d, name).
Proof.
  intros Hd He Hn. rewrite split_at_last_sep by exact Hn.
  destruct (exists_last Hd) as (d' & y & ->).
  rewrite endswith_snoc in He. apply Ascii.eqb_neq in He.
  assert (Hy : y <> sep) by congruence.
  rewrite (@not_all_sep ((d' ++ [y]) ++ [sep]) y); [|apply in_or_app; left;
    apply in_or_app; right; now left | exact Hy].
  cbn [negb]. now rewrite rstrip_snoc_other.
Qed.

Lemma last_occurrence_unique (c : ascii) (a b a' b' : str) :
  a ++ c :: b = a' ++ c :: b' -> ~ In c b -> ~ In c b' -> a = a'.
Proof.
  revert a'. induction a as [|x a IH]; intros a' E Hb Hb'.
  - destruct a' as [|y a']; [reflexivity|]. cbn [app] in E.
    injection E as <- E. exfalso. apply Hb. rewrite E. apply in_or_app.
    right. now left.
  - destruct a' as [|y a'].
    + cbn [app] in E. injection E as -> E. exfalso. apply Hb'. rewrite <- E.
      apply in_or_app. right. now left.
    + cbn [app] in E. injection E as <- E. f_equal. now apply IH with (1 := E).
Qed.

Lemma rfind_last (a b : str) (c : ascii) :
  ~ In c b -> rfind (a ++ c :: b) c = Z.of_nat (length a).
Proof.
  intros Hb.
  destruct (rfind_spec (a ++ c :: b) c) as [(_ & Hn)|(a' & b' & E & Hb' & Hr)].
  - exfalso. apply Hn, in_or_app. right. now left.
  - rewrite Hr. f_equal. f_equal. symmetry.
    now apply last_occurrence_unique with (1 := E).
Qed.

Lemma rfind_none (s : str) (c : ascii) : ~ In c s -> rfind s c = (-1)%Z.
Proof.
  intros H. destruct (rfind_spec s c) as [(Hr & _)|(a & b & -> & _)];
    [exact Hr|].
  exfalso. apply H, in_or_app. right. now left.
Qed.

Lemma slice_one (a r : str) (c : ascii) :
  slice (a ++ c :: r) (Z.of_nat (length a)) (Z.of_nat (length a) + 1) = [c].
Proof.
  unfold slice.
  replace (Z.to_nat (Z.of_nat (length a) + 1) - Z.to_nat (Z.of_nat (length a)))
    with 1 by lia.
  rewrite Nat2Z.id, skipn_app, Nat.sub_diag, skipn_all. reflexivity.
Qed.

(** The loop over the leading dots stops at the first other character. *)
Lemma splitext_loop_true (k : nat) :
  forall (a r : str) (c : ascii) (fuel : nat) (d : Z),
    k < fuel -> c <> extsep -> (Z.of_nat (length a + k) < d)%Z ->
    os_path.splitext_loop fuel (a ++ repeat extsep k ++ c :: r)
      (Z.of_nat (length a)) d = true.
Proof.
  induction k as [|k IH]; intros a r c fuel d Hf Hc Hd;
    (destruct fuel as [|fuel]; [lia|]); cbn [os_path.splitext_loop].
  - destruct (Z.ltb_spec (Z.of_nat (length a)) d) as [_|H]; [|lia].
    cbn [repeat app]. rewrite slice_one.
    assert (E : str_eqb [c] [extsep] = false)
      by (apply str_eqb_neq; congruence).
    now rewrite E.
  - destruct (Z.ltb_spec (Z.of_nat (length a)) d) as [_|H]; [|lia].
    cbn [repeat app]. rewrite slice_one, str_eqb_refl. cbn [negb].
    replace (Z.of_nat (length a) + 1)%Z with (Z.of_nat (length (a ++ [extsep])))
      by (rewrite length_app; cbn [length]; lia).
    replace (a ++ extsep :: repeat extsep k ++ c :: r)
      with ((a ++ [extsep]) ++ repeat extsep k ++ c :: r)
      by now rewrite <- app_assoc.
    apply IH; [lia | exact Hc |]. rewrite length_app. cbn [length]. lia.
Qed.

(** It finds nothing when only dots come before the last dot. *)
Lemma splitext_loop_false (k : nat) :
  forall (a r : str) (fuel : nat),
    os_path.splitext_loop fuel (a ++ repeat extsep k ++ r)
      (Z.of_nat (length a)) (Z.of_nat (length a + k)) = false.
Proof.
  induction k as [|k IH]; intros a r fuel;
    (destruct fuel as [|fuel]; [reflexivity|]); cbn [os_path.splitext_loop].
  - destruct (Z.ltb_spec (Z.of_nat (length a)) (Z.of_nat (length a + 0)))
      as [H|_]; [lia | reflexivity].
  - destruct (Z.ltb_spec (Z.of_nat (length a)) (Z.of_nat (length a + S k)))
      as [_|H]; [|lia].
    cbn [repeat app]. rewrite slice_one, str_eqb_refl. cbn [negb].
    replace (Z.of_nat (length a) + 1)%Z with (Z.of_nat (length (a ++ [extsep])))
      by (rewrite length_app; cbn [length]; lia).
    replace (Z.of_nat (length a + S k))
      with (Z.of_nat (length (a ++ [extsep]) + k))
      by (rewrite length_app; cbn [length]; lia).
    replace (a ++ extsep :: repeat extsep k ++ r)
      with ((a ++ [extsep]) ++ repeat extsep k ++ r)
      by now rewrite <- app_assoc.
    apply IH.
Qed.

Lemma first_other_character (s : str) :
  (exists c, In c s /\ c <> extsep) ->
  exists k c s', s = repeat extsep k ++ c :: s' /\ c <> extsep.
Proof.
  induction s as [|x s IH]; intros (c & Hin & Hc); [destruct Hin|].
  destruct (ascii_dec x extsep) as [->|Hx].
  - destruct Hin as [<-|Hin]; [congruence|].
    destruct IH as (k & c' & s' & -> & Hc'); [now exists c|].
    now exists (S k), c', s'.
  - now exists 0, x, s.
Qed.

(** [os.path.splitext] of a name with an extension. *)
Lemma splitext_name_ext (st e : str) :
  ~ In sep st -> ~ In sep e -> ~ In extsep e ->
  (exists c, In c st /\ c <> extsep) ->
  os_path.splitext (st ++ extsep :: e) = (st, extsep :: e).
Proof.
  intros Hs He Hd Hc. unfold os_path.splitext.
  assert (Hsep : ~ In sep (st ++ extsep :: e)).
  { intros H. apply in_app_or in H as [H|[H|H]];
      [auto | discriminate | auto]. }
  rewrite (@rfind_none _ _ Hsep), (@rfind_last st e extsep Hd).
  destruct (Z.ltb_spec (-1) (Z.of_nat (length st))) as [_|H]; [|lia].
  destruct (@first_other_character st Hc) as (k & c & s' & Est & Hne).
  assert (Hloop :
    os_path.splitext_loop (Z.to_nat (Z.of_nat (length st) - -1))
      (st ++ extsep :: e) (-1 + 1) (Z.of_nat (length st)) = true).
  { rewrite Est at 2.
    replace ((repeat extsep k ++ c :: s') ++ extsep :: e)
      with ([] ++ repeat extsep k ++ c :: (s' ++ extsep :: e))
      by (cbn [app]; now rewrite <- app_assoc).
    change (-1 + 1)%Z with (Z.of_nat (length (@nil ascii))).
    assert (Hlen : length st = k + S (length s'))
      by (rewrite Est, length_app, repeat_length; reflexivity).
    apply splitext_loop_true; [lia | exact Hne | cbn [length]; lia]. }
  rewrite Hloop. cbn [andb]. rewrite Nat2Z.id.
  rewrite firstn_app, Nat.sub_diag, firstn_all. cbn [firstn].
  rewrite app_nil_r, skipn_app, Nat.sub_diag, skipn_all. reflexivity.
Qed.

(** [os.path.splitext] of a name whose only dots are leading ones. *)
Lemma splitext_leading_dots (k : nat) (name : str) :
  ~ In sep name -> ~ In extsep name ->
  os_path.splitext (repeat extsep k ++ name) = (repeat extsep k ++ name, []).
Proof.
  intros Hs Hd. unfold os_path.splitext.
  assert (Hsep : ~ In sep (repeat extsep k ++ name)).
  { intros H. apply in_app_or in H as [H|H]; [|auto].
    apply repeat_spec in H. discriminate. }
  rewrite (@rfind_none _ _ Hsep). destruct k as [|k].
  - cbn [repeat app]. now rewrite (@rfind_none _ _ Hd).
  - cbn [repeat]. rewrite repeat_cons, <- app_assoc. cbn [app].
    rewrite (@rfind_last (repeat extsep k) name extsep Hd).
    rewrite repeat_length.
    destruct (Z.ltb_spec (-1) (Z.of_nat k)) as [_|H]; [|lia].
    replace (repeat extsep k ++ extsep :: name)
      with ([] ++ repeat extsep k ++ extsep :: name) by reflexivity.
    change (-1 + 1)%Z with (Z.of_nat (length (@nil ascii))).
    replace (Z.of_nat k) with (Z.of_nat (length (@nil ascii) + k)) at 2
      by (cbn [length]; lia).
    now rewrite splitext_loop_false.
Qed.

(** X13.  The decomposition is read back from its parts: a path made of a
    bottom folder, a top folder, a stem and an extension, joined by
    separators and a dot, yields exactly these parts. *)
Theorem Filepath_info_of_components (b t st e : str) :
  b <> [] -> endswith b [sep] = false ->
  t <> [] -> ~ In sep t ->
  ~ In sep st -> (exists c, In c st /\ c <> extsep) ->
  ~ In sep e -> ~ In extsep e ->
  Filepath_info_init (b ++ sep :: t ++ sep :: st ++ extsep :: e)
  = {| folder := b ++ sep :: t;
       filename := st ++ extsep :: e;
       stem := st;
       extension := extsep :: e;
       bottom_folders := b;
       top_folder := t |}.
Proof.
  intros Hb Hbe Ht Hts Hst Hc He Hed.
  assert (Hname : ~ In sep (st ++ extsep :: e)).
  { intros H. apply in_app_or in H as [H|[H|H]];
      [auto | discriminate | auto]. }
  assert (Hfolder : endswith (b ++ sep :: t) [sep] = false).
  { destruct (exists_last Ht) as (t' & y & ->).
    replace (b ++ sep :: t' ++ [y]) with ((b ++ sep :: t') ++ [y])
      by now rewrite <- app_assoc.
    rewrite endswith_snoc. apply Ascii.eqb_neq. intros E. subst y.
    apply Hts, in_or_app. right. now left. }
  unfold Filepath_info_init.
  replace (b ++ sep :: t ++ sep :: st ++ extsep :: e)
    with ((b ++ sep :: t) ++ sep :: st ++ extsep :: e)
    by now rewrite <- app_assoc.
  rewrite (@split_dir_name (b ++ sep :: t) (st ++ extsep :: e));
    [| now destruct b | exact Hfolder | exact Hname].
  rewrite (@splitext_name_ext st e Hst He Hed Hc).
  now rewrite (@split_dir_name b t Hb Hbe Hts).
Qed.

Lemma Filepath_info_of_components_witness :
  Filepath_info_init "/home/u/proj/topic/notes.tex"
  = {| folder := "/home/u/proj/topic";
       filename := "notes.tex";
       stem := "notes";
       extension := ".tex";
       bottom_folders := "/home/u/proj";
       top_folder := "topic" |}.
Proof.
  apply (@Filepath_info_of_components "/home/u/proj" "topic" "notes" "tex").
  - discriminate.
  - reflexivity.
  - discriminate.
  - cbn. intros H. repeat destruct H as [H|H]; try discriminate H; exact H.
  - cbn. intros H. repeat destruct H as [H|H]; try discriminate H; exact H.
  - exists "n"%char. split; [now left | discriminate].
  - cbn. intros H. repeat destruct H as [H|H]; try discriminate H; exact H.
  - cbn. intros H. repeat destruct H as [H|H]; try discriminate H; exact H.
Defined.

(** X14.  A file name whose only dots are leading ones (a name without an
    extension, a hidden file) has no extension for the script: the stem is
    the whole file name, and the mapping file is looked for under the file
    name plus [.synctex.gz]. *)
Theorem Filepath_info_without_extension (d name : str) (k : nat) :
  d <> [] -> endswith d [sep] = false ->
  ~ In sep name -> ~ In extsep name ->
  let fp := Filepath_info_init (d ++ sep :: repeat extsep k ++ name) in
  folder fp = d
  /\ filename fp = repeat extsep k ++ name
  /\ stem fp = filename fp
  /\ extension fp = []
  /\ synctex_gz_file fp = filename fp ++ ".synctex.gz".
Proof.
  intros Hd He Hs Hx. cbn zeta.
  assert (Hname : ~ In sep (repeat extsep k ++ name)).
  { intros H. apply in_app_or in H as [H|H]; [|auto].
    apply repeat_spec in H. discriminate. }
  unfold synctex_gz_file, Filepath_info_init.
  rewrite (@split_dir_name d (repeat extsep k ++ name) Hd He Hname).
  rewrite (@splitext_leading_dots k name Hs Hx).
  destruct (os_path.split d).
  cbn [folder filename stem extension]. now repeat split.
Qed.

Lemma Filepath_info_without_extension_witness :
  let fp := Filepath_info_init "/home/u/proj/.latexmkrc" in
  folder fp = "/home/u/proj"
  /\ filename fp = ".latexmkrc"
  /\ stem fp = filename fp
  /\ extension fp = []
  /\ synctex_gz_file fp = filename fp ++ ".synctex.gz".
Proof.
  apply (@Filepath_info_without_extension "/home/u/proj" "latexmkrc" 1).
  - discriminate.
  - reflexivity.
  - cbn. intros H. repeat destruct H as [H|H]; try discriminate H; exact H.
  - cbn. intros H. repeat destruct H as [H|H]; try discriminate H; exact H.
Defined.

(** X15.  A document given by its bare name, without any folder, has an
    empty folder, bottom folder and top folder: the forward transfer is
    given an empty source, the build runs in the remote root itself, and
    the back-transfer is given an empty destination. *)
Theorem document_without_folder (name server : str) :
  ~ In sep name ->
  let fp := Filepath_info_init name in
  folder fp = [] /\ filename fp = name
  /\ bottom_folders fp = [] /\ top_folder fp = []
  /\ forward_command fp server
     = "rsync -a -h --exclude=" ++ [DQUOTE] ++ forward_exclude ++ [DQUOTE]
         ++ " --info=progress2  " ++ server ++ ":/tmp"
  /\ ssh_command fp server
     = "ssh " ++ server ++ " " ++ [DQUOTE] ++ "cd /tmp/ && "
         ++ LATEXMK_COMMAND ++ " " ++ name ++ [DQUOTE]
  /\ back_command fp server
     = "rsync -a -h --exclude=" ++ [DQUOTE] ++ back_exclude ++ [DQUOTE]
         ++ " --info=progress2 " ++ server ++ ":/tmp/ ".
Proof.
  intros Hn. cbn zeta.
  unfold forward_command, back_command, ssh_command, sync_forward_command,
    sync_back_command, Filepath_info_init.
  rewrite (@split_no_sep name Hn).
  change (os_path.split []) with (@nil ascii, @nil ascii).
  destruct (os_path.splitext name).
  cbn [folder filename bottom_folders top_folder].
  repeat split; cbn [app]; rewrite <- ?app_assoc; reflexivity.
Qed.

Lemma document_without_folder_witness :
  let fp := Filepath_info_init "notes.tex" in
  folder fp = [] /\ filename fp = "notes.tex"
  /\ bottom_folders fp = [] /\ top_folder fp = []
  /\ forward_command fp "build.example.org"
     = "rsync -a -h --exclude=" ++ [DQUOTE] ++ forward_exclude ++ [DQUOTE]
         ++ " --info=progress2  " ++ "build.example.org" ++ ":/tmp"
  /\ ssh_command fp "build.example.org"
     = "ssh " ++ "build.example.org" ++ " " ++ [DQUOTE] ++ "cd /tmp/ && "
         ++ LATEXMK_COMMAND ++ " " ++ "notes.tex" ++ [DQUOTE]
  /\ back_command fp "build.example.org"
     = "rsync -a -h --exclude=" ++ [DQUOTE] ++ back_exclude ++ [DQUOTE]
         ++ " --info=progress2 " ++ "build.example.org" ++ ":/tmp/ ".
Proof.
  apply (@document_without_folder "notes.tex" "build.example.org").
  cbn. intros H. repeat destruct H as [H|H]; try discriminate H; exact H.
Defined.

(** X16.  A document directly under the root has the root as its folder
    and as its bottom folder, and no top folder: the forward transfer
    sends the whole file tree, and the back-transfer copies the remote
    root over the local root. *)
Theorem document_at_root (name server : str) :
  ~ In sep name ->
  let fp := Filepath_info_init (sep :: name) in
  folder fp = [sep] /\ filename fp = name
  /\ bottom_folders fp = [sep] /\ top_folder fp = []
  /\ forward_command fp server
     = "rsync -a -h --exclude=" ++ [DQUOTE] ++ forward_exclude ++ [DQUOTE]
         ++ " --info=progress2 / " ++ server ++ ":/tmp"
  /\ back_command fp server
     = "rsync -a -h --exclude=" ++ [DQUOTE] ++ back_exclude ++ [DQUOTE]
         ++ " --info=progress2 " ++ server ++ ":/tmp/ /".
Proof.
  intros Hn. cbn zeta.
  unfold forward_command, back_command, sync_forward_command,
    sync_back_command, Filepath_info_init.
  change (sep :: name) with ([] ++ sep :: name).
  rewrite (@split_at_last_sep [] name Hn).
  change (os_path.split ([] ++ [sep])) with ([sep], @nil ascii).
  cbn [app length repeat]. rewrite str_eqb_refl. cbn [negb].
  change (os_path.split [sep]) with ([sep], @nil ascii).
  destruct (os_path.splitext name).
  cbn [folder filename bottom_folders top_folder].
  repeat split; cbn [app]; rewrite <- ?app_assoc; reflexivity.
Qed.

Lemma document_at_root_witness :
  let fp := Filepath_info_init "/notes.tex" in
  folder fp = [sep] /\ filename fp = "notes.tex"
  /\ bottom_folders fp = [sep] /\ top_folder fp = []
  /\ forward_command fp "build.example.org"
     = "rsync -a -h --exclude=" ++ [DQUOTE] ++ forward_exclude ++ [DQUOTE]
         ++ " --info=progress2 / " ++ "build.example.org" ++ ":/tmp"
  /\ back_command fp "build.example.org"
     = "rsync -a -h --exclude=" ++ [DQUOTE] ++ back_exclude ++ [DQUOTE]
         ++ " --info=progress2 " ++ "build.example.org" ++ ":/tmp/ /".
Proof.
  apply (@document_at_root "notes.tex" "build.example.org").
  cbn. intros H. repeat destruct H as [H|H]; try discriminate H; exact H.
Defined.

(** * More on the exclusions *)

Lemma wildmatch_star (name : str) :
  rsync.wildmatch [rsync.Star] name = true <-> ~ In sep name.
Proof.
  induction name as [|c name IH].
  - split; [intros _ [] | reflexivity].
  - change (rsync.wildmatch [rsync.Star] (c :: name))
      with (false || negb (Ascii.eqb c sep)
                     && rsync.wildmatch [rsync.Star] name).
    rewrite orb_false_l, andb_true_iff, negb_true_iff, IH. split.
    + intros [Hc Hn] [H|H]; [|auto]. subst c.
      now rewrite Ascii.eqb_refl in Hc.
    + intros H. split.
      * apply Ascii.eqb_neq. intros E. apply H. now left.
      * intros Hn. apply H. now right.
Qed.

(** X17.  The option of the forward transfer leaves out exactly the names
    that begin with one dot followed by a character that is neither a dot
    nor a separator, whatever follows within the name: hidden entries such
    as [.git], but not [.], [..] or a name that begins with two dots. *)
Theorem forward_exclude_hidden_names (name : str) :
  rsync.excludes forward_exclude name = true
  <-> exists c rest,
        name = extsep :: c :: rest
        /\ c <> extsep /\ c <> sep /\ ~ In sep rest.
Proof.
  unfold rsync.excludes.
  change (rsync.tokens (length forward_exclude) forward_exclude)
    with [rsync.Lit extsep; rsync.Class true [extsep]; rsync.Star].
  split.
  - intros H. destruct name as [|d [|c rest]];
      cbn [rsync.wildmatch rsync.token_matches] in H;
      rewrite ?andb_false_r in H; try discriminate H.
    change (Ascii.eqb extsep d
            && (negb (Ascii.eqb c sep)
                && xorb true (existsb (Ascii.eqb c) [extsep])
                && rsync.wildmatch [rsync.Star] rest) = true) in H.
    apply andb_true_iff in H as [Hd H].
    apply andb_true_iff in H as [H Hrest].
    apply andb_true_iff in H as [Hs Hc].
    apply Ascii.eqb_eq in Hd. subst d.
    apply negb_true_iff, Ascii.eqb_neq in Hs.
    cbn [existsb xorb] in Hc. rewrite orb_false_r in Hc.
    apply negb_true_iff, Ascii.eqb_neq in Hc.
    apply wildmatch_star in Hrest.
    exists c, rest. now repeat split.
  - intros (c & rest & -> & Hc & Hs & Hrest).
    change (Ascii.eqb extsep extsep
            && (negb (Ascii.eqb c sep)
                && xorb true (existsb (Ascii.eqb c) [extsep])
                && rsync.wildmatch [rsync.Star] rest) = true).
    apply Ascii.eqb_neq in Hc, Hs. apply wildmatch_star in Hrest.
    cbn [existsb xorb]. now rewrite Ascii.eqb_refl, Hs, Hc, Hrest.
Qed.

(** * More on the reading of the mapping file *)

Lemma translate_newlines_app (a x : str) :
  ~ In CR a -> translate_newlines (a ++ x) = a ++ translate_newlines x.
Proof.
  induction a as [|c a IH]; intros H; [reflexivity|].
  cbn [app translate_newlines]. destruct (Ascii.eqb c CR) eqn:E.
  - apply Ascii.eqb_eq in E. subst c. exfalso. apply H. now left.
  - f_equal. apply IH. intros Ha. apply H. now right.
Qed.

(** X18.  The line-ending convention of the mapping file is lost: a
    carriage return followed by a line feed, and a carriage return alone,
    are read as one line feed, so the repaired file is the one of the same
    text with plain line feeds. *)
Theorem sanitize_text_line_endings (a b cur tgt : str) :
  ~ In CR a ->
  sanitize_text (a ++ CR :: LF :: b) cur tgt
  = sanitize_text (a ++ LF :: b) cur tgt
  /\ (startswith b [LF] = false ->
      sanitize_text (a ++ CR :: b) cur tgt
      = sanitize_text (a ++ LF :: b) cur tgt)
  /\ sanitize_text (translate_newlines (a ++ CR :: b)) cur tgt
     = sanitize_text (a ++ CR :: b) cur tgt.
Proof.
  intros Ha. unfold sanitize_text, read_lines.
  rewrite !translate_newlines_app by exact Ha. split; [reflexivity|]. split.
  - intros Hb. cbn [translate_newlines]. rewrite Ascii.eqb_refl.
    change (Ascii.eqb LF CR) with false. cbn iota.
    destruct b as [|d b]; [reflexivity|].
    cbn [startswith] in Hb.
    rewrite startswith_nil, andb_true_r, Ascii.eqb_sym in Hb.
    now rewrite Hb.
  - rewrite (@translate_newlines_no_CR (translate_newlines (CR :: b)));
      [reflexivity | apply translate_newlines_clean].
Qed.

Lemma sanitize_text_line_endings_witness :
  ~ In CR "/tmp/topic/a.tex"
  /\ sanitize_text ("/tmp/topic/a.tex" ++ CR :: LF :: "/tmp/topic/b.tex")
       "/home/u/proj" "/tmp"
     = "/home/u/proj/topic/a.tex" ++ LF :: "/home/u/proj/topic/b.tex".
Proof.
  assert (H : ~ In CR "/tmp/topic/a.tex").
  { cbn. intros H. repeat destruct H as [H|H]; try discriminate H; exact H. }
  split; [exact H|].
  destruct (@sanitize_text_line_endings "/tmp/topic/a.tex" "/tmp/topic/b.tex"
              "/home/u/proj" "/tmp" H) as (E & _).
  rewrite E. reflexivity.
Defined.

(** * The repair and the path of the document *)

Lemma replace_prefix (old new rest : str) :
  old <> [] -> replace (old ++ rest) old new = new ++ replace rest old new.
Proof.
  intros Ho. destruct old as [|o old']; [congruence|]. cbn [app].
  rewrite (@replace_unfold (o :: old') new Ho o (old' ++ rest)).
  change (o :: old' ++ rest) with ((o :: old') ++ rest).
  rewrite startswith_app, skipn_app, skipn_all, Nat.sub_diag.
  reflexivity.
Qed.

Lemma endswith_dir_name (d name : str) :
  name <> [] -> ~ In sep name -> endswith (d ++ name) [sep] = false.
Proof.
  intros Hn Hs. destruct (exists_last Hn) as (n' & y & ->).
  rewrite app_assoc, endswith_snoc. apply Ascii.eqb_neq. intros E. subst y.
  apply Hs, in_or_app. right. now left.
Qed.

(** The fields of a path made of a bottom folder, a top folder and a file
    name. *)
Lemma Filepath_info_folders (b t name : str) :
  b <> [] -> endswith b [sep] = false -> t <> [] -> ~ In sep t ->
  ~ In sep name ->
  let fp := Filepath_info_init (b ++ sep :: t ++ sep :: name) in
  folder fp = b ++ sep :: t /\ filename fp = name
  /\ bottom_folders fp = b /\ top_folder fp = t.
Proof.
  intros Hb Hbe Ht Hts Hn. cbn zeta. unfold Filepath_info_init.
  replace (b ++ sep :: t ++ sep :: name) with ((b ++ sep :: t) ++ sep :: name)
    by now rewrite <- app_assoc.
  rewrite (@split_dir_name (b ++ sep :: t) name);
    [| now destruct b
     | change (b ++ sep :: t) with (b ++ [sep] ++ t); rewrite app_assoc;
       now apply endswith_dir_name
     | exact Hn].
  rewrite (@split_dir_name b t Hb Hbe Hts).
  destruct (os_path.splitext name).
  cbn [folder filename bottom_folders top_folder]. now repeat split.
Qed.

(** The path of the document on the server. *)
Lemma remote_document_path (t name : str) :
  t <> [] -> ~ In sep t -> ~ In sep name ->
  os_path.join (os_path.join SERVER_TARGET_DIR t) name
  = SERVER_TARGET_DIR ++ sep :: t ++ sep :: name.
Proof.
  intros Ht Hts Hn. rewrite (@join_under_root t Hts).
  rewrite (@join_relative _ name Hn). unfold with_sep.
  rewrite (@endswith_dir_name "/tmp/" t Ht Hts).
  change (is_nil ("/tmp/" ++ t)) with false. cbn [orb].
  rewrite <- !app_assoc. reflexivity.
Qed.

(** X19.  The repair undoes the move to the server: for a document in a
    top folder below a bottom folder, the line that holds the path of the
    document on the server, remote root, top folder and file name, is
    rewritten to the path the script was given, when that path is
    normalized and the remote root occurs nowhere else in the line. *)
Theorem repair_restores_document_path (b t name : str) :
  b <> [] -> endswith b [sep] = false -> t <> [] -> ~ In sep t ->
  ~ In sep name ->
  let path := b ++ sep :: t ++ sep :: name in
  let fp := Filepath_info_init path in
  contains SERVER_TARGET_DIR (sep :: t ++ sep :: name) = false ->
  os_path.normpath path = path ->
  sanitize_line (bottom_folders fp) SERVER_TARGET_DIR
    (os_path.join (os_path.join SERVER_TARGET_DIR (top_folder fp))
       (filename fp))
  = path.
Proof.
  intros Hb Hbe Ht Hts Hn. cbn zeta. intros Hc Hnorm.
  destruct (@Filepath_info_folders b t name Hb Hbe Ht Hts Hn)
    as (_ & -> & -> & ->).
  rewrite (@remote_document_path t name Ht Hts Hn). unfold sanitize_line.
  rewrite replace_prefix by discriminate.
  rewrite replace_absent by exact Hc. exact Hnorm.
Qed.

Lemma repair_restores_document_path_witness :
  let fp := Filepath_info_init "/home/u/proj/topic/notes.tex" in
  sanitize_line (bottom_folders fp) SERVER_TARGET_DIR
    (os_path.join (os_path.join SERVER_TARGET_DIR (top_folder fp))
       (filename fp))
  = "/home/u/proj/topic/notes.tex".
Proof.
  apply (@repair_restores_document_path "/home/u/proj" "topic" "notes.tex").
  - discriminate.
  - reflexivity.
  - discriminate.
  - cbn. intros H. repeat destruct H as [H|H]; try discriminate H; exact H.
  - cbn. intros H. repeat destruct H as [H|H]; try discriminate H; exact H.
  - reflexivity.
  - reflexivity.
Defined.

(** X20.  For a document in a folder directly under the root, with a top
    folder and a file name that are plain components (not empty, not a dot
    or two dots, without separator) and such that the remote root does not
    occur in the path of the document, the bottom folder is the root
    itself, and the repair does not give the path of the document back:
    the separator of the root and the one left after the remote root make
    two, which the normalization keeps at the start of a path. *)
Theorem repair_under_root_doubles_separator (t name : str) :
  clean_comp t -> clean_comp name -> t <> dotdot -> name <> dotdot ->
  contains SERVER_TARGET_DIR (sep :: t ++ sep :: name) = false ->
  let path := sep :: t ++ sep :: name in
  let fp := Filepath_info_init path in
  bottom_folders fp = [sep] /\ top_folder fp = t /\ filename fp = name
  /\ sanitize_line (bottom_folders fp) SERVER_TARGET_DIR
       (os_path.join (os_path.join SERVER_TARGET_DIR (top_folder fp))
          (filename fp))
     = sep :: path.
Proof.
  intros (Ht & Htd & Hts) (Hn & Hnd & Hns) Htdd Hndd Hc. cbn zeta.
  assert (Hfields :
    let fp := Filepath_info_init (sep :: t ++ sep :: name) in
    bottom_folders fp = [sep] /\ top_folder fp = t /\ filename fp = name).
  { cbn zeta. unfold Filepath_info_init.
    change (sep :: t ++ sep :: name) with ((sep :: t) ++ sep :: name).
    rewrite (@split_dir_name (sep :: t) name);
      [| discriminate | now apply (@endswith_dir_name [sep] t) | exact Hns].
    change (sep :: t) with ([] ++ sep :: t).
    rewrite (@split_at_last_sep [] t Hts).
    cbn [app length repeat]. rewrite str_eqb_refl. cbn [negb].
    destruct (os_path.splitext name).
    cbn [filename bottom_folders top_folder]. now repeat split. }
  cbn zeta in Hfields. destruct Hfields as (Eb & Et & Ef).
  rewrite Eb, Et, Ef. repeat split.
  rewrite (@remote_document_path t name Ht Hts Hns). unfold sanitize_line.
  rewrite replace_prefix by discriminate.
  rewrite replace_absent by exact Hc.
  change ([sep] ++ sep :: t ++ sep :: name)
    with (repeat sep 2 ++ str_join [sep] [t; name]).
  apply normpath_fixed.
  - lia.
  - discriminate.
  - repeat constructor; assumption.
  - intros a c E. destruct a as [|x [|y [|z a]]]; cbn [app] in E.
    + injection E as E _. congruence.
    + injection E as _ E _. congruence.
    + injection E as _ _ E. discriminate E.
    + injection E as _ _ E. discriminate E.
Qed.

Lemma repair_under_root_doubles_separator_witness :
  let fp := Filepath_info_init "/topic/notes.tex" in
  bottom_folders fp = [sep] /\ top_folder fp = "topic"
  /\ filename fp = "notes.tex"
  /\ sanitize_line (bottom_folders fp) SERVER_TARGET_DIR
       (os_path.join (os_path.join SERVER_TARGET_DIR (top_folder fp))
          (filename fp))
     = "//topic/notes.tex".
Proof.
  apply (@repair_under_root_doubles_separator "topic" "notes.tex").
  - repeat split; try discriminate.
    cbn. intros H. repeat destruct H as [H|H]; try discriminate H; exact H.
  - repeat split; try discriminate.
    cbn. intros H. repeat destruct H as [H|H]; try discriminate H; exact H.
  - discriminate.
  - discriminate.
  - reflexivity.
Defined.

(** X23.  A path that ends with a separator names no file: the file name,
    the stem and the extension are empty, the build is asked for an empty
    file name and the mapping file looked for is [.synctex.gz].  The folder
    is the path without its final separators, or the whole path when it is
    made of separators only; so it is the path without the final separator
    when one separator ends a path that is not the root. *)
Theorem Filepath_info_of_folder_path (p server : str) :
  let fp := Filepath_info_init (p ++ [sep]) in
  filename fp = [] /\ stem fp = [] /\ extension fp = []
  /\ synctex_gz_file fp = ".synctex.gz"
  /\ ssh_command fp server
     = "ssh " ++ server ++ " " ++ [DQUOTE] ++ "cd /tmp/" ++ top_folder fp
         ++ " && " ++ LATEXMK_COMMAND ++ " " ++ [DQUOTE]
  /\ folder fp
     = (if str_eqb (p ++ [sep]) (repeat sep (length (p ++ [sep])))
        then p ++ [sep] else rstrip p sep)
  /\ (p <> [] -> endswith p [sep] = false -> folder fp = p).
Proof.
  cbn zeta.
  assert (Ht : ~ In sep (top_folder (Filepath_info_init (p ++ [sep])))).
  { destruct (Filepath_info_fields (p ++ [sep])) as (_ & _ & _ & _ & _ & H6).
    rewrite H6. apply split_tail_no_sep. }
  unfold ssh_command. rewrite (@join_under_root _ Ht). clear Ht.
  assert (Hfields :
    filename (Filepath_info_init (p ++ [sep])) = []
    /\ stem (Filepath_info_init (p ++ [sep])) = []
    /\ extension (Filepath_info_init (p ++ [sep])) = []
    /\ folder (Filepath_info_init (p ++ [sep]))
       = (if str_eqb (p ++ [sep]) (repeat sep (length (p ++ [sep])))
          then p ++ [sep] else rstrip p sep)).
  { unfold Filepath_info_init.
    rewrite (@split_at_last_sep p [] (@in_nil ascii sep)).
    change (os_path.splitext []) with (@nil ascii, @nil ascii).
    match goal with
    | |- context [os_path.split ?d] => destruct (os_path.split d)
    end.
    cbn [folder filename stem extension].
    destruct (str_eqb (p ++ [sep]) (repeat sep (length (p ++ [sep]))));
      now repeat split. }
  destruct Hfields as (Ef & Es & Ee & Ed).
  unfold synctex_gz_file. rewrite Ef, Es, Ee, Ed.
  split; [reflexivity|]. split; [reflexivity|]. split; [reflexivity|].
  split; [reflexivity|]. split; [reflexivity|]. split; [reflexivity|].
  intros Hp He. destruct (exists_last Hp) as (p' & y & ->).
  rewrite endswith_snoc in He. apply Ascii.eqb_neq in He.
  rewrite (@not_all_sep ((p' ++ [y]) ++ [sep]) y);
    [| apply in_or_app; left; apply in_or_app; right; now left
     | congruence].
  apply rstrip_snoc_other. congruence.
Qed.
